(** * MiracleCast GUI: the process supervision of [miraclecast-gui.py]

    A shallow embedding of the handlers of class [MiracleCastGUI] that
    start, stop and tear down the external sink and source programs, build
    their command lines and manage system services, with the properties the
    specification states about them.

    Conventions.
    - The window object is the record [GUI]; every handler is a state
      transformer on it, written in the small state monad [M].
    - [self.processes] is a Python dict: an insertion-ordered association
      list from the role name to a [QProcess] handle. Handles are indices
      into [heap], the store of the [QProcess] objects the window created.
    - Qt, the operating system and the interpreter are the oracle [Env]:
      how long a child takes to report started, how long it takes to exit
      after a termination request and with which exit code, when Qt notices
      the death of a killed child, what a [subprocess] call returns, and how
      many digits [int] converts.
    - [kill] only sends the signal: the state of the [QProcess] stays what
      it is until Qt notices the death of the child, inside a later
      [waitForFinished] or in the event loop, and emits [finished].
    - [calls] records, in program order, every call the handlers make on a
      [QProcess] and on [subprocess]; [elapsed] adds up the milliseconds
      spent inside the blocking [waitFor...] calls.
    - [log] prepends a wall-clock timestamp to the line it appends; the
      console is kept as the list of (error flag, message) pairs, without
      the timestamp.
    - Texts are strings over the code points below 256: a character of
      [string] stands for the code point of its number, and [Text] has
      [str.strip], [str.isdigit] and [int] as Python defines them there.
    - An exception that leaves a handler ends the handler; what PyQt does
      with it afterwards is not modelled.
    - [process_output], which copies the output of a child to the console,
      changes the console only and is left out. *)

From Stdlib Require Import ZArith Ascii String List Bool Lia.
From stdpp Require Import base tactics option list strings pretty.

Open Scope string_scope.

(** ** Text helpers: [str.strip], [str.isdigit], [int], [str.join] *)

Module Text.

(** [str.isspace] on one character: TAB, LF, VT, FF, CR, the four
    separators FS GS RS US, the space, NEL (U+0085) and the no-break space
    (U+00A0). *)
Definition isspace (c : ascii) : bool :=
  let n := nat_of_ascii c in
  ((9 <=? n)%nat && (n <=? 13)%nat) || ((28 <=? n)%nat && (n <=? 32)%nat)
  || (n =? 133)%nat || (n =? 160)%nat.

Fixpoint lstrip (s : string) : string :=
  match s with
  | String c s' => if isspace c then lstrip s' else s
  | EmptyString => EmptyString
  end.

Fixpoint rstrip (s : string) : string :=
  match s with
  | String c s' =>
      match rstrip s' with
      | EmptyString => if isspace c then EmptyString else String c EmptyString
      | r => String c r
      end
  | EmptyString => EmptyString
  end.

Definition strip (s : string) : string := rstrip (lstrip s).

(** A decimal digit, [0] to [9]: the digits that [int] reads. *)
Definition isdecimal_char (c : ascii) : bool :=
  let n := nat_of_ascii c in (48 <=? n)%nat && (n <=? 57)%nat.

(** [str.isdigit] on one character: a decimal digit, or one of the
    superscript digits U+00B2, U+00B3 and U+00B9. *)
Definition isdigit_char (c : ascii) : bool :=
  let n := nat_of_ascii c in
  isdecimal_char c || (n =? 178)%nat || (n =? 179)%nat || (n =? 185)%nat.

Fixpoint all_digits (s : string) : bool :=
  match s with
  | String c s' => isdigit_char c && all_digits s'
  | EmptyString => true
  end.

Fixpoint all_decimal (s : string) : bool :=
  match s with
  | String c s' => isdecimal_char c && all_decimal s'
  | EmptyString => true
  end.

(** [str.isdigit]: every character a digit and at least one character. *)
Definition isdigit (s : string) : bool :=
  match s with
  | EmptyString => false
  | _ => all_digits s
  end.

(** Python truthiness of a string. *)
Definition nonempty (s : string) : bool :=
  match s with EmptyString => false | _ => true end.

Fixpoint int_acc (acc : Z) (s : string) : Z :=
  match s with
  | String c s' => int_acc (10 * acc + (Z.of_nat (nat_of_ascii c) - 48)) s'
  | EmptyString => acc
  end.

(** [int(s)] for a string [s] that passed [isdigit]: the number, or [None]
    for the [ValueError] that [int] raises when a character of [s] is not a
    decimal digit, or when [s] has more than [max_str_digits] digits
    ([sys.get_int_max_str_digits()]; 0 stands for no limit). *)
Definition int (max_str_digits : N) (s : string) : option Z :=
  if nonempty s && all_decimal s
     && ((max_str_digits =? 0)%N
         || (N.of_nat (String.length s) <=? max_str_digits)%N)
  then Some (int_acc 0 s)
  else None.

(** [sep.join(l)]. *)
Definition join (sep : string) (l : list string) : string :=
  String.concat sep l.

End Text.

(** ** The Python dict [self.processes] *)

Module Dict.

Definition t := list (string * nat).

(** [d.get(k)], also the test [k in d]. *)
Fixpoint get (k : string) (d : t) : option nat :=
  match d with
  | (k', v) :: d' => if String.eqb k k' then Some v else get k d'
  | [] => None
  end.

(** [d[k] = v]: an existing key keeps its position, a new key goes last. *)
Fixpoint set (k : string) (v : nat) (d : t) : t :=
  match d with
  | (k', v') :: d' =>
      if String.eqb k k' then (k', v) :: d' else (k', v') :: set k v d'
  | [] => [(k, v)]
  end.

(** [d.pop(k, None)]. *)
Fixpoint pop (k : string) (d : t) : t :=
  match d with
  | (k', v') :: d' => if String.eqb k k' then d' else (k', v') :: pop k d'
  | [] => []
  end.

Definition keys (d : t) : list string := map fst d.

Definition values (d : t) : list nat := map snd d.

End Dict.

(** ** The window state *)

Inductive ProcessState := NotRunning | Starting | Running.

Global Instance ProcessState_eq_dec : EqDecision ProcessState.
Proof. solve_decision. Defined.

(** A [QProcess] object: its state, the role name captured by the lambda
    that [run_command] connects to its [finished] signal, and whether
    [kill] has sent the kill signal to its child. *)
Record QProcess := mkQProcess {
  state : ProcessState;
  finished_slot : string;
  killed : bool
}.

(** Calls made on [QProcess] objects and on [subprocess]. *)
Inductive Call :=
| Terminate (h : nat)
| Kill (h : nat)
| WaitForFinished (h : nat) (msecs : N)
| Start (h : nat) (program : string) (arguments : list string)
| WaitForStarted (h : nat) (msecs : N)
| SubprocessRun (argv : list string)
| SubprocessCall (argv : list string).

Global Instance Call_eq_dec : EqDecision Call.
Proof. solve_decision. Defined.

Record GUI := mkGUI {
  processes : Dict.t;
  heap : list QProcess;
  sink_status_label : string;
  source_status_label : string;
  nm_status : string;
  wpa_status : string;
  console : list (bool * string);
  dialogs : list string;
  calls : list Call;
  elapsed : N
}.

(** The widgets the handlers read. *)
Record Form := mkForm {
  universal_script : string;
  iface_combo : string;
  uibc_check : bool;
  green_screen_check : bool;
  hw_fixes_check : bool;
  session_check : bool;
  source_iface_combo : string;
  source_res_width : string;
  source_res_height : string;
  source_fps : string;
  source_bitrate : string;
  source_hw_fixes_check : bool;
  source_session_check : bool
}.

(** What Qt, the operating system and the interpreter decide. *)
Record Env := mkEnv {
  (** milliseconds until the child of this handle reports started;
      [None] when the launch fails and it never does *)
  start_delay : nat → option N;
  (** milliseconds from the termination request to the exit of the child,
      with its exit code; [None] when the child ignores the request *)
  term_delay : nat → option (N * Z);
  (** for a child that was sent the kill signal: the milliseconds a wait
      lasts until Qt notices its death, and the exit code Qt reports *)
  kill_exit : nat → N * Z;
  (** [subprocess.run(argv)], by the number of calls made so far: the text
      of a raised exception, or the return code and the standard error *)
  run_result : nat → list string → string + (Z * string);
  (** [subprocess.call(argv)]: the text of a raised exception or the
      return code *)
  call_result : nat → list string → string + Z;
  (** [sys.get_int_max_str_digits()]: the most digits [int] converts, 4300
      unless configured otherwise, 0 for no limit *)
  int_max_str_digits : N
}.

(** The state right after [__init__]: no process, both roles "Not Running",
    both services "Unknown". *)
Definition init : GUI :=
  {| processes := []; heap := [];
     sink_status_label := "Not Running"; source_status_label := "Not Running";
     nm_status := "Unknown"; wpa_status := "Unknown";
     console := []; dialogs := []; calls := []; elapsed := 0%N |}.

(** Field updates. *)
Definition set_processes (d : Dict.t) (g : GUI) : GUI :=
  mkGUI d (heap g) (sink_status_label g) (source_status_label g)
        (nm_status g) (wpa_status g) (console g) (dialogs g) (calls g) (elapsed g).
Definition set_heap (hp : list QProcess) (g : GUI) : GUI :=
  mkGUI (processes g) hp (sink_status_label g) (source_status_label g)
        (nm_status g) (wpa_status g) (console g) (dialogs g) (calls g) (elapsed g).
Definition set_sink_status_label (s : string) (g : GUI) : GUI :=
  mkGUI (processes g) (heap g) s (source_status_label g)
        (nm_status g) (wpa_status g) (console g) (dialogs g) (calls g) (elapsed g).
Definition set_source_status_label (s : string) (g : GUI) : GUI :=
  mkGUI (processes g) (heap g) (sink_status_label g) s
        (nm_status g) (wpa_status g) (console g) (dialogs g) (calls g) (elapsed g).
Definition set_nm_status (s : string) (g : GUI) : GUI :=
  mkGUI (processes g) (heap g) (sink_status_label g) (source_status_label g)
        s (wpa_status g) (console g) (dialogs g) (calls g) (elapsed g).
Definition set_wpa_status (s : string) (g : GUI) : GUI :=
  mkGUI (processes g) (heap g) (sink_status_label g) (source_status_label g)
        (nm_status g) s (console g) (dialogs g) (calls g) (elapsed g).
Definition set_console (c : list (bool * string)) (g : GUI) : GUI :=
  mkGUI (processes g) (heap g) (sink_status_label g) (source_status_label g)
        (nm_status g) (wpa_status g) c (dialogs g) (calls g) (elapsed g).
Definition set_dialogs (d : list string) (g : GUI) : GUI :=
  mkGUI (processes g) (heap g) (sink_status_label g) (source_status_label g)
        (nm_status g) (wpa_status g) (console g) d (calls g) (elapsed g).
Definition set_calls (c : list Call) (g : GUI) : GUI :=
  mkGUI (processes g) (heap g) (sink_status_label g) (source_status_label g)
        (nm_status g) (wpa_status g) (console g) (dialogs g) c (elapsed g).
Definition set_elapsed (n : N) (g : GUI) : GUI :=
  mkGUI (processes g) (heap g) (sink_status_label g) (source_status_label g)
        (nm_status g) (wpa_status g) (console g) (dialogs g) (calls g) n.

(** ** The state monad of the handlers *)

Definition M (A : Type) : Type := GUI → A * GUI.

Definition ret {A} (a : A) : M A := λ g, (a, g).
Definition bind {A B} (m : M A) (k : A → M B) : M B :=
  λ g, let '(a, g') := m g in k a g'.
Definition modify (f : GUI → GUI) : M unit := λ g, (tt, f g).
Definition gets {A} (f : GUI → A) : M A := λ g, (f g, g).
(** The state a handler leaves. *)
Definition exec {A} (m : M A) (g : GUI) : GUI := (m g).2.

Notation "'let*' x := m 'in' k" := (bind m (λ x, k))
  (at level 10, x name, m at level 100, k at level 200, only parsing).
Notation "m ;; k" := (bind m (λ _, k))
  (at level 100, k at level 200, right associativity, only parsing).

(** A [for] loop over a list. *)
Fixpoint for_each {A} (l : list A) (body : A → M unit) : M unit :=
  match l with
  | x :: l' => body x ;; for_each l' body
  | [] => ret tt
  end.

(** The value of [build_universal_cmd]: what it returns, or the exception
    it raises ([cmd] is unbound for an unknown mode; [int] raises
    [ValueError]). *)
Inductive Outcome :=
| Returned (cmd : option (list string))
| Raised (e : string).

(** ** The handlers *)

Section Handlers.

Variable env : Env.

(** *** [QProcess], as Qt documents it *)

Definition state_of (g : GUI) (h : nat) : ProcessState :=
  match heap g !! h with
  | Some p => state p
  | None => NotRunning
  end.

(** The child of handle [h] is alive. *)
Definition alive (g : GUI) (h : nat) : bool :=
  bool_decide (state_of g h ≠ NotRunning).

(** The child of handle [h] has been sent the kill signal. *)
Definition killed_of (g : GUI) (h : nat) : bool :=
  match heap g !! h with
  | Some p => killed p
  | None => false
  end.

Definition set_state (h : nat) (s : ProcessState) (g : GUI) : GUI :=
  set_heap (alter (λ p, mkQProcess s (finished_slot p) (killed p)) h (heap g)) g.

(** The kill signal goes to the child of [h], when [h] has a child. *)
Definition set_killed (h : nat) (g : GUI) : GUI :=
  set_heap
    (alter (λ p, mkQProcess (state p) (finished_slot p)
                   (bool_decide (state p ≠ NotRunning) || killed p))
       h (heap g)) g.

Definition record (c : Call) : M unit :=
  modify (λ g, set_calls (calls g ++ [c]) g).

Definition tick (ms : N) : M unit :=
  modify (λ g, set_elapsed (elapsed g + ms)%N g).

(** [show_error]: a modal error dialog. *)
Definition show_error (message : string) : M unit :=
  modify (λ g, set_dialogs (dialogs g ++ [message]) g).

(** [log(message, error)]. *)
Definition log (message : string) (error : bool) : M unit :=
  modify (λ g, set_console (console g ++ [(error, message)]) g).

(** The [if process_name == 'sink' ... elif process_name == 'source' ...]
    that picks the status label of a role. *)
Definition set_status_label (process_name text : string) : M unit :=
  if String.eqb process_name "sink" then modify (set_sink_status_label text)
  else if String.eqb process_name "source" then modify (set_source_status_label text)
  else ret tt.

(** The status shown for a role. *)
Definition status_label (process_name : string) (g : GUI) : option string :=
  if String.eqb process_name "sink" then Some (sink_status_label g)
  else if String.eqb process_name "source" then Some (source_status_label g)
  else None.

(** [process_finished(process_name, exit_code, exit_status)]. *)
Definition process_finished (process_name : string) (exit_code : Z) : M unit :=
  if negb (exit_code =? 0)%Z then
    log ("Process '" ++ process_name ++ "' exited with code " ++ pretty exit_code) true ;;
    set_status_label process_name "Error"
  else
    log ("Process '" ++ process_name ++ "' completed successfully") false ;;
    set_status_label process_name "Not Running".

(** The [finished] signal of handle [h]: the connected lambda runs. *)
Definition emit_finished (h : nat) (exit_code : Z) : M unit :=
  let* hp := gets heap in
  match hp !! h with
  | Some p => process_finished (finished_slot p) exit_code
  | None => ret tt
  end.

(** [process.terminate()]: a request; the child exits later or not. *)
Definition terminate (h : nat) : M unit := record (Terminate h).

(** [process.kill()]: the kill signal is sent to the child, which cannot
    refuse it; the state of the process does not change here. On a process
    that is not running the call does nothing. *)
Definition kill (h : nat) : M unit :=
  record (Kill h) ;; modify (set_killed h).

(** When the child of [h] exits while it is waited for, and with which
    exit code: a killed child dies of the kill, another one exits if and
    when it follows the termination request. *)
Definition exit_of (g : GUI) (h : nat) : option (N * Z) :=
  if killed_of g h then Some (kill_exit env h) else term_delay env h.

(** [process.waitForFinished(msecs)]: false at once when the process is
    not running; true, after emitting [finished], when the child exits
    within [msecs]; false after [msecs] otherwise. *)
Definition waitForFinished (h : nat) (msecs : N) : M bool :=
  record (WaitForFinished h msecs) ;;
  let* st := gets (λ g, state_of g h) in
  match st with
  | NotRunning => ret false
  | _ =>
      let* exit := gets (λ g, exit_of g h) in
      match exit with
      | Some (d, exit_code) =>
          if (d <=? msecs)%N then
            tick d ;;
            modify (set_state h NotRunning) ;;
            emit_finished h exit_code ;;
            ret true
          else tick msecs ;; ret false
      | None => tick msecs ;; ret false
      end
  end.

(** [QProcess(self)] with the [finished] signal connected to
    [process_finished(process_name, ...)]; the result is the new handle. *)
Definition new_QProcess (process_name : string) : M nat :=
  let* hp := gets heap in
  modify (set_heap (hp ++ [mkQProcess NotRunning process_name false])) ;;
  ret (length hp).

(** [process.start(program, arguments)]. *)
Definition start (h : nat) (program : string) (arguments : list string) : M unit :=
  record (Start h program arguments) ;; modify (set_state h Starting).

(** [process.waitForStarted(msecs)]. *)
Definition waitForStarted (h : nat) (msecs : N) : M bool :=
  record (WaitForStarted h msecs) ;;
  match start_delay env h with
  | Some d =>
      if (d <=? msecs)%N then
        tick d ;; modify (set_state h Running) ;; ret true
      else tick msecs ;; ret false
  | None => modify (set_state h NotRunning) ;; ret false
  end.

(** *** [run_command(cmd, process_name)] *)
Definition run_command (cmd : option (list string)) (process_name : string) : M unit :=
  match cmd with
  | None => log "Invalid command parameters, cannot execute" true
  | Some cmd =>
      let* d := gets processes in
      match Dict.get process_name d with
      | Some process =>
          terminate process ;;
          let* finished := waitForFinished process 3000%N in
          if negb finished then
            log "Process didn't terminate gracefully, forcing kill" true ;;
            kill process
          else ret tt
      | None => ret tt
      end ;;
      log ("Running: " ++ Text.join " " cmd) false ;;
      let* process := new_QProcess process_name in
      modify (λ g, set_processes (Dict.set process_name process (processes g)) g) ;;
      match cmd with
      | program :: arguments =>
          start process program arguments ;;
          let* started := waitForStarted process 5000%N in
          if negb started then
            log ("Failed to start process: " ++ program) true ;;
            modify (λ g, set_processes (Dict.pop process_name (processes g)) g) ;;
            set_status_label process_name "Start Failed"
          else ret tt
      | [] =>
          (* [cmd[0]] raises IndexError inside the [try] *)
          log "Exception starting process: list index out of range" true ;;
          modify (λ g, set_processes (Dict.pop process_name (processes g)) g)
      end
  end.

(** *** [stop_sink_service] and [stop_source_service] *)
Definition stop_sink_service : M unit :=
  let* d := gets processes in
  match Dict.get "sink" d with
  | Some process =>
      terminate process ;;
      let* finished := waitForFinished process 3000%N in
      (if negb finished then
         log "Process didn't terminate gracefully, forcing..." true ;;
         kill process
       else ret tt) ;;
      modify (set_sink_status_label "Not Running") ;;
      log "Stopped sink service" false
  | None => ret tt
  end.

Definition stop_source_service : M unit :=
  let* d := gets processes in
  match Dict.get "source" d with
  | Some process =>
      terminate process ;;
      let* finished := waitForFinished process 3000%N in
      (if negb finished then
         log "Process didn't terminate gracefully, forcing..." true ;;
         kill process
       else ret tt) ;;
      modify (set_source_status_label "Not Running") ;;
      log "Stopped source service" false
  | None => ret tt
  end.

(** *** [cleanup_on_exit]; no call in its [try] raises *)
Definition cleanup_on_exit : M unit :=
  let* d := gets processes in
  for_each d (λ item,
    let name := item.1 in
    let process := item.2 in
    let* st := gets (λ g, state_of g process) in
    if bool_decide (st ≠ NotRunning) then
      log ("Cleaning up process: " ++ name) false ;;
      terminate process ;;
      let* finished := waitForFinished process 2000%N in
      if negb finished then kill process else ret tt
    else ret tt).

(** *** [build_universal_cmd(mode)] *)

Variable form : Form.

Definition build_universal_cmd (mode : string) : M Outcome :=
  if String.eqb mode "sink" then
    let iface := iface_combo form in
    let cmd := [universal_script form; "-i"; iface; "-m"; "sink"] in
    let cmd := if uibc_check form then (cmd ++ ["-u"])%list else cmd in
    let cmd := if green_screen_check form then (cmd ++ ["-g"])%list else cmd in
    let cmd := if negb (hw_fixes_check form) then (cmd ++ ["-n"])%list else cmd in
    let cmd := if negb (session_check form) then (cmd ++ ["-s"])%list else cmd in
    ret (Returned (Some cmd))
  else if String.eqb mode "source" then
    let iface := source_iface_combo form in
    let cmd := [universal_script form; "-i"; iface; "-m"; "source"] in
    (* the rest of the branch, read from its last statement upwards *)
    let flags (cmd : list string) : M Outcome :=
      let cmd := if negb (source_hw_fixes_check form) then (cmd ++ ["-n"])%list else cmd in
      let cmd := if negb (source_session_check form) then (cmd ++ ["-s"])%list else cmd in
      ret (Returned (Some cmd)) in
    let from_bitrate (cmd : list string) : M Outcome :=
      let bitrate := Text.strip (source_bitrate form) in
      if Text.nonempty bitrate && Text.isdigit bitrate then
        match Text.int (int_max_str_digits env) bitrate with
        | Some bitrate_val =>
            if (1000 <=? bitrate_val)%Z && (bitrate_val <=? 20000)%Z then
              flags (cmd ++ ["-b"; bitrate])%list
            else
              show_error "Invalid bitrate. Must be between 1000-20000 kbps." ;;
              ret (Returned None)
        | None => ret (Raised "ValueError")
        end
      else flags cmd in
    let from_fps (cmd : list string) : M Outcome :=
      let fps := Text.strip (source_fps form) in
      if Text.nonempty fps && Text.isdigit fps then
        match Text.int (int_max_str_digits env) fps with
        | Some fps_val =>
            if (10 <=? fps_val)%Z && (fps_val <=? 60)%Z then
              from_bitrate (cmd ++ ["-f"; fps])%list
            else
              show_error "Invalid FPS. Must be between 10-60." ;;
              ret (Returned None)
        | None => ret (Raised "ValueError")
        end
      else from_bitrate cmd in
    let width := Text.strip (source_res_width form) in
    let height := Text.strip (source_res_height form) in
    if Text.nonempty width && Text.nonempty height
       && Text.isdigit width && Text.isdigit height then
      match Text.int (int_max_str_digits env) width,
            Text.int (int_max_str_digits env) height with
      | Some width_val, Some height_val =>
          if ((320 <=? width_val)%Z && (width_val <=? 3840)%Z)
             && ((240 <=? height_val)%Z && (height_val <=? 2160)%Z) then
            from_fps (cmd ++ ["-r"; (width ++ "x" ++ height)%string])%list
          else
            show_error "Invalid resolution. Width must be 320-3840, height 240-2160." ;;
            ret (Returned None)
      | _, _ => ret (Raised "ValueError")
      end
    else from_fps cmd
  else ret (Raised "UnboundLocalError").

(** *** [start_sink_service] and [start_source_service] *)
Definition start_sink_service : M unit :=
  let iface := iface_combo form in
  if negb (Text.nonempty iface) then
    show_error "Select network interface first"
  else
    let* built := build_universal_cmd "sink" in
    match built with
    | Returned cmd =>
        run_command cmd "sink" ;;
        modify (set_sink_status_label "Running") ;;
        log ("Started sink mode with universal script on " ++ iface) false
    | Raised _ => ret tt (* the exception leaves the handler *)
    end.

Definition start_source_service : M unit :=
  let iface := source_iface_combo form in
  if negb (Text.nonempty iface) then
    show_error "Select network interface first"
  else
    let* built := build_universal_cmd "source" in
    match built with
    | Returned cmd =>
        run_command cmd "source" ;;
        modify (set_source_status_label "Running") ;;
        log ("Started source mode with universal script on " ++ iface) false
    | Raised _ => ret tt (* the exception leaves the handler *)
    end.

(** *** [check_services_status] *)
Definition check_services_status : M unit :=
  let argv_nm := ["systemctl"; "is-active"; "NetworkManager"] in
  let argv_wpa := ["systemctl"; "is-active"; "wpa_supplicant"] in
  let* n := gets (λ g, length (calls g)) in
  record (SubprocessCall argv_nm) ;;
  match call_result env n argv_nm with
  | inr rc_nm =>
      let* n := gets (λ g, length (calls g)) in
      record (SubprocessCall argv_wpa) ;;
      match call_result env n argv_wpa with
      | inr rc_wpa =>
          modify (set_nm_status (if (rc_nm =? 0)%Z then "Running" else "Stopped")) ;;
          modify (set_wpa_status (if (rc_wpa =? 0)%Z then "Running" else "Stopped"))
      | inl e => log ("Service status check failed: " ++ e) true
      end
  | inl e => log ("Service status check failed: " ++ e) true
  end.

(** *** [manage_service(service_name, start)] *)

(** A character of the class [[a-zA-Z0-9_.-]]. *)
Definition service_name_char (c : ascii) : bool :=
  let n := nat_of_ascii c in
  ((97 <=? n)%nat && (n <=? 122)%nat) || ((65 <=? n)%nat && (n <=? 90)%nat)
  || ((48 <=? n)%nat && (n <=? 57)%nat)
  || (n =? 95)%nat || (n =? 46)%nat || (n =? 45)%nat.

(** The rest of a match of [[a-zA-Z0-9_.-]+$] after its first character:
    more characters of the class, then the end of the string or, as
    Python reads [$], one line feed that ends the string. *)
Fixpoint service_name_rest (s : string) : bool :=
  match s with
  | EmptyString => true
  | String c s' =>
      if service_name_char c then service_name_rest s'
      else (nat_of_ascii c =? 10)%nat && negb (Text.nonempty s')
  end.

(** [re.match(r'^[a-zA-Z0-9_.-]+$', s)] is not [None]. Line 605 of the
    source repeats the tail of this call; the pattern is the one of its
    first, complete occurrence. *)
Definition service_name_match (s : string) : bool :=
  match s with
  | EmptyString => false
  | String c s' => service_name_char c && service_name_rest s'
  end.

Definition allowed_services : list string :=
  ["NetworkManager"; "wpa_supplicant"; "network-manager"].

Definition manage_service (service_name : string) (start : bool) : M unit :=
  if negb (service_name_match service_name) then
    let error_msg := "Invalid service name format: " ++ service_name in
    show_error error_msg ;;
    log error_msg true
  else
    let action := if start then "start" else "stop" in
    if negb (existsb (String.eqb service_name) allowed_services) then
      let error_msg := "Service management not allowed for: " ++ service_name in
      show_error error_msg ;;
      log error_msg true
    else
      let argv := ["sudo"; "systemctl"; action; service_name] in
      let* n := gets (λ g, length (calls g)) in
      record (SubprocessRun argv) ;;
      match run_result env n argv with
      | inr (returncode, stderr) =>
          if (returncode =? 0)%Z then
            log (service_name ++ " " ++ action ++ "ed successfully") false ;;
            check_services_status
          else
            let error_msg :=
              if Text.nonempty (Text.strip stderr) then Text.strip stderr
              else "Failed to " ++ action ++ " " ++ service_name in
            show_error error_msg ;;
            log error_msg true
      | inl e =>
          show_error ("Error: " ++ e) ;;
          log e true
      end.

(** *** The Qt event loop *)

(** The event loop notices that the child of handle [h] has exited, on its
    own or of a kill: Qt marks the process not running and emits
    [finished] with the exit code. *)
Definition child_exited (h : nat) (exit_code : Z) : M unit :=
  let* st := gets (λ g, state_of g h) in
  if bool_decide (st ≠ NotRunning) then
    modify (set_state h NotRunning) ;;
    emit_finished h exit_code
  else ret tt.

End Handlers.

(** What the event loop dispatches: the clicks wired in [create_sink_tab],
    [create_source_tab] and [create_setup_tab], with the widget contents at
    the time of the click, and the exit of a child. *)
Inductive Event :=
| StartSinkClicked (form : Form)
| StopSinkClicked
| StartSourceClicked (form : Form)
| StopSourceClicked
| ServiceClicked (service_name : string) (start : bool)
| RefreshStatusClicked
| ChildExited (h : nat) (exit_code : Z).

Definition dispatch (env : Env) (e : Event) : M unit :=
  match e with
  | StartSinkClicked form => start_sink_service env form
  | StopSinkClicked => stop_sink_service env
  | StartSourceClicked form => start_source_service env form
  | StopSourceClicked => stop_source_service env
  | ServiceClicked service_name start => manage_service env service_name start
  | RefreshStatusClicked => check_services_status env
  | ChildExited h exit_code => child_exited h exit_code
  end.

(** [app.exec_()]: the events in order, from a given state. *)
Fixpoint event_loop (env : Env) (events : list Event) (g : GUI) : GUI :=
  match events with
  | e :: events' => event_loop env events' (exec (dispatch env e) g)
  | [] => g
  end.

(** The main entry point: the window is built, the event loop runs, and
    on interpreter exit the hook registered by [__init__] through
    [atexit.register] runs, once. *)
Definition main (env : Env) (events : list Event) : GUI :=
  exec (cleanup_on_exit env) (event_loop env events init).


(** ** Vocabulary of the properties *)

Section Vocabulary.

Variable env : Env.

(** The child of [h] is alive in [g] and a wait of [msecs] sees it exit:
    of the termination request or, for a killed child, of the kill. *)
Definition exits_within (h : nat) (msecs : N) (g : GUI) : bool :=
  alive g h &&
  match exit_of env g h with
  | Some (d, _) => (d <=? msecs)%N
  | None => false
  end.

(** The child of [h] has exited, or has been sent the kill signal, which
    it cannot refuse: [state()] may still report it as running. *)
Definition stopped (g : GUI) (h : nat) : Prop :=
  state_of g h = NotRunning ∨ killed_of g h = true.

(** The calls of one graceful-then-forced stop of [h]. *)
Definition stop_calls (h : nat) (msecs : N) (g : GUI) : list Call :=
  [Terminate h; WaitForFinished h msecs]
  ++ (if exits_within h msecs g then [] else [Kill h]).

(** The stop sequence that [run_command], the stop handlers and
    [cleanup_on_exit] share: the termination request, the bounded wait
    and, when the wait reports no exit, an optional log line and the
    kill. *)
Definition graceful_then_forced (msecs : N) (msg : option string) (h : nat)
  : M unit :=
  terminate h ;;
  let* finished := waitForFinished env h msecs in
  if negb finished then
    match msg with Some m => log m true | None => ret tt end ;;
    kill h
  else ret tt.

(** The part of the state that only the start and stop of processes
    and the service calls touch. *)
Definition same_registry (g g' : GUI) : Prop :=
  processes g' = processes g ∧ heap g' = heap g ∧ calls g' = calls g
  ∧ elapsed g' = elapsed g.

(** The child of [h] reports started within [msecs]. *)
Definition starts_within (h : nat) (msecs : N) : bool :=
  match start_delay env h with
  | Some d => (d <=? msecs)%N
  | None => false
  end.

(** The state of a launched process when [waitForStarted] returns. *)
Definition state_after_start (h : nat) (msecs : N) : ProcessState :=
  match start_delay env h with
  | Some d => if (d <=? msecs)%N then Running else Starting
  | None => NotRunning
  end.

(** *** The two halves of [run_command] *)

Definition stop_registered (process_name : string) : M unit :=
  let* d := gets processes in
  match Dict.get process_name d with
  | Some process =>
      graceful_then_forced 3000%N
        (Some "Process didn't terminate gracefully, forcing kill"%string) process
  | None => ret tt
  end.

Definition launch (cmd : list string) (process_name : string) : M unit :=
  log ("Running: " ++ Text.join " " cmd) false ;;
  let* process := new_QProcess process_name in
  modify (λ g, set_processes (Dict.set process_name process (processes g)) g) ;;
  match cmd with
  | program :: arguments =>
      start process program arguments ;;
      let* started := waitForStarted env process 5000%N in
      if negb started then
        log ("Failed to start process: " ++ program) true ;;
        modify (λ g, set_processes (Dict.pop process_name (processes g)) g) ;;
        set_status_label process_name "Start Failed"
      else ret tt
  | [] =>
      log "Exception starting process: list index out of range" true ;;
      modify (λ g, set_processes (Dict.pop process_name (processes g)) g)
  end.

(** The registry is well formed: one entry per role, one role per
    handle, and every handle is one of the objects created so far. *)
Definition wf (g : GUI) : Prop :=
  NoDup (Dict.keys (processes g))
  ∧ NoDup (Dict.values (processes g))
  ∧ ∀ h, h ∈ Dict.values (processes g) → h < length (heap g).

(** A step that neither changes the registry nor creates an object. *)
Definition keeps_registry (g g' : GUI) : Prop :=
  processes g' = processes g ∧ length (heap g') = length (heap g).

(** The handler wired to the Stop button of a role. *)
Definition stop_handler (role : string) : option (M unit) :=
  if String.eqb role "sink" then Some (stop_sink_service env)
  else if String.eqb role "source" then Some (stop_source_service env)
  else None.

(** The handler wired to the Start button of a role, and the interface
    selection it reads. *)
Definition start_handler (form : Form) (role : string) : option (M unit) :=
  if String.eqb role "sink" then Some (start_sink_service env form)
  else if String.eqb role "source" then Some (start_source_service env form)
  else None.

Definition selected_interface (form : Form) (role : string) : option string :=
  if String.eqb role "sink" then Some (iface_combo form)
  else if String.eqb role "source" then Some (source_iface_combo form)
  else None.

(** One iteration of the loop of [cleanup_on_exit], and its calls. *)
Definition cleanup_entry (item : string * nat) : M unit :=
  let name := item.1 in
  let process := item.2 in
  let* st := gets (λ g, state_of g process) in
  if bool_decide (st ≠ NotRunning) then
    log ("Cleaning up process: " ++ name) false ;;
    terminate process ;;
    let* finished := waitForFinished env process 2000%N in
    if negb finished then kill process else ret tt
  else ret tt.

Definition cleanup_calls (g : GUI) (item : string * nat) : list Call :=
  if alive g item.2 then stop_calls item.2 2000%N g else [].


End Vocabulary.

(** *** The source options, stated apart from the code *)

Module SourceOptions.

Section Options.

Variable env : Env.

(** The stripped text of a field is all digits. *)
Definition numeric (s : string) : bool := Text.isdigit (Text.strip s).

(** The number [int] reads in a field, when it reads one. *)
Definition value (s : string) : option Z :=
  Text.int (int_max_str_digits env) (Text.strip s).

Definition readable (s : string) : bool :=
  match value s with Some _ => true | None => false end.

(** The number in a field lies in [[lo, hi]]. *)
Definition within (lo hi : Z) (s : string) : bool :=
  match value s with
  | Some v => (lo <=? v)%Z && (v <=? hi)%Z
  | None => false
  end.

(** What the build does about an option: it leaves it out, appends it,
    turns the request down for a number out of range, or fails on digits
    that [int] does not read. *)
Inductive Verdict := Omitted | Appended | OutOfRange | Unreadable.

Definition resolution_given (form : Form) : bool :=
  numeric (source_res_width form) && numeric (source_res_height form).

Definition resolution_valid (form : Form) : bool :=
  within 320 3840 (source_res_width form)
  && within 240 2160 (source_res_height form).

(** Width and height count together. *)
Definition resolution (form : Form) : Verdict :=
  if negb (resolution_given form) then Omitted
  else if negb (readable (source_res_width form)
                && readable (source_res_height form)) then Unreadable
  else if resolution_valid form then Appended
  else OutOfRange.

Definition ranged (lo hi : Z) (s : string) : Verdict :=
  if negb (numeric s) then Omitted
  else if negb (readable s) then Unreadable
  else if within lo hi s then Appended
  else OutOfRange.

Definition fps (form : Form) : Verdict := ranged 10 60 (source_fps form).

Definition bitrate (form : Form) : Verdict :=
  ranged 1000 20000 (source_bitrate form).

Definition faulty (v : Verdict) : bool :=
  match v with OutOfRange | Unreadable => true | _ => false end.

(** The options are examined in the order resolution, FPS, bitrate; the
    first one out of range or unreadable ends the build. *)
Definition first_fault (form : Form) : option Verdict :=
  List.find faulty [resolution form; fps form; bitrate form].

(** The build returns [None]. *)
Definition rejected (form : Form) : bool :=
  match first_fault form with Some OutOfRange => true | _ => false end.

(** The build raises [ValueError]. *)
Definition raises (form : Form) : bool :=
  match first_fault form with Some Unreadable => true | _ => false end.

Definition appended (v : Verdict) (option : list string) : list string :=
  match v with Appended => option | _ => [] end.

(** The result of the source mode: the options that are numeric and in
    range, the others left out; [None] when the first faulty option is out
    of range, and [ValueError] when it is unreadable. *)
Definition source_cmd_spec (form : Form) : Outcome :=
  if raises form then Raised "ValueError"
  else if rejected form then Returned None
  else
    Returned (Some
      ([universal_script form; "-i"; source_iface_combo form; "-m"; "source"]
       ++ appended (resolution form)
            ["-r"; (Text.strip (source_res_width form) ++ "x"
                    ++ Text.strip (source_res_height form))%string]
       ++ appended (fps form) ["-f"; Text.strip (source_fps form)]
       ++ appended (bitrate form) ["-b"; Text.strip (source_bitrate form)]
       ++ (if source_hw_fixes_check form then [] else ["-n"])
       ++ (if source_session_check form then [] else ["-s"]))%list).

End Options.

End SourceOptions.

(** A request the specification calls malformed: a source start whose
    numeric options make the build return [None], or a service action on a
    name that is not whitelisted or does not match the pattern. *)
Definition malformed (env : Env) (e : Event) : Prop :=
  match e with
  | StartSourceClicked form =>
      Text.nonempty (source_iface_combo form) = true
      ∧ SourceOptions.rejected env form = true
  | ServiceClicked service_name _ =>
      service_name ∉ allowed_services ∨ service_name_match service_name = false
  | _ => False
  end.

(** *** Concrete runs *)

Module Scenario.

(** Children report started after 10 ms and exit with code 0, 100 ms after
    a termination request; every service call succeeds. In all three
    environments Qt notices the death of a killed child at once and reports
    the exit code 9, and [int] converts 4300 digits at most. *)
Definition cooperative : Env :=
  mkEnv (λ _, Some 10%N) (λ _, Some (100%N, 0%Z)) (λ _, (0%N, 9%Z))
        (λ _ _, inr (0%Z, "")) (λ _ _, inr 0%Z) 4300%N.

(** Children start but ignore the termination request. *)
Definition stubborn : Env :=
  mkEnv (λ _, Some 10%N) (λ _, None) (λ _, (0%N, 9%Z))
        (λ _ _, inr (0%Z, "")) (λ _ _, inr 0%Z) 4300%N.

(** No child ever reports started. *)
Definition never_starts : Env :=
  mkEnv (λ _, None) (λ _, None) (λ _, (0%N, 9%Z))
        (λ _ _, inr (0%Z, "")) (λ _ _, inr 0%Z) 4300%N.

(** The text of the one character U+00B2, superscript two. *)
Definition superscript_two : string := String (ascii_of_nat 178) EmptyString.

(** The widgets as [create_sink_tab] and [create_source_tab] fill them,
    with an interface selected. *)
Definition defaults : Form :=
  mkForm "/opt/miraclecast-universal.sh" "wlan0" false false true true
         "wlan0" "1280" "720" "30" "8192" true true.


Definition with_fps (fps : string) : Form :=
  mkForm "/opt/miraclecast-universal.sh" "wlan0" false false true true
         "wlan0" "1280" "720" fps "8192" true true.

Definition no_interface : Form :=
  mkForm "/opt/miraclecast-universal.sh" "" false false true true
         "" "1280" "720" "30" "8192" true true.

(** The window once the sink, then the source, were started. *)
Definition sink_running (env : Env) : GUI :=
  event_loop env [StartSinkClicked defaults] init.

Definition both_running (env : Env) : GUI :=
  event_loop env [StartSinkClicked defaults; StartSourceClicked defaults] init.

End Scenario.

(** ** Vocabulary of the further properties *)

(** The statuses a role label can show, and those of a service label. *)
Definition role_statuses : list string :=
  ["Not Running"; "Running"; "Start Failed"; "Error"].

Definition service_statuses : list string := ["Unknown"; "Running"; "Stopped"].

(** The calls the handlers make: waits of 3000 and 2000 ms for an exit and
    of 5000 ms for a start, [sudo systemctl start|stop] on a whitelisted
    service, and [systemctl is-active] on the two services shown. *)
Definition ok_call (c : Call) : bool :=
  match c with
  | WaitForFinished _ msecs => (msecs =? 3000)%N || (msecs =? 2000)%N
  | WaitForStarted _ msecs => (msecs =? 5000)%N
  | SubprocessRun [sudo; systemctl; action; service_name] =>
      String.eqb sudo "sudo" && String.eqb systemctl "systemctl"
      && (String.eqb action "start" || String.eqb action "stop")
      && existsb (String.eqb service_name) allowed_services
  | SubprocessRun _ => false
  | SubprocessCall [systemctl; is_active; service_name] =>
      String.eqb systemctl "systemctl" && String.eqb is_active "is-active"
      && (String.eqb service_name "NetworkManager"
          || String.eqb service_name "wpa_supplicant")
  | SubprocessCall _ => false
  | Terminate _ | Kill _ | Start _ _ _ => true
  end.

(** How the window state may change while handlers run: the console, the
    dialogs and the calls only grow, the calls by well-formed ones; the
    time spent waiting does not decrease; an object of the store stays,
    with the role its [finished] signal is bound to; a label changes to
    one of its statuses only. *)
Record evolves (g g' : GUI) : Prop := mk_evolves {
  ev_console : console g `prefix_of` console g';
  ev_dialogs : dialogs g `prefix_of` dialogs g';
  ev_calls : ∃ l, calls g' = (calls g ++ l)%list ∧ forallb ok_call l = true;
  ev_elapsed : (elapsed g ≤ elapsed g')%N;
  ev_heap : ∀ h p, heap g !! h = Some p →
            ∃ p', heap g' !! h = Some p' ∧ finished_slot p' = finished_slot p;
  ev_sink : sink_status_label g' = sink_status_label g
            ∨ sink_status_label g' ∈ role_statuses;
  ev_source : source_status_label g' = source_status_label g
              ∨ source_status_label g' ∈ role_statuses;
  ev_nm : nm_status g' = nm_status g ∨ nm_status g' ∈ service_statuses;
  ev_wpa : wpa_status g' = wpa_status g ∨ wpa_status g' ∈ service_statuses
}.

(** A computation whose every run is such a change. *)
Definition safe {A} (m : M A) : Prop := ∀ g, evolves g (m g).2.

(** Every registry entry is one of the two roles, bound to an object of
    the store whose [finished] signal reports under that role. *)
Definition registry_ok (g : GUI) : Prop :=
  ∀ role h, (role, h) ∈ processes g →
    (role = "sink" ∨ role = "source")
    ∧ ∃ p, heap g !! h = Some p ∧ finished_slot p = role.

(** The form with its four numeric fields stripped of surrounding
    whitespace. *)
Definition strip_numeric_fields (form : Form) : Form :=
  mkForm (universal_script form) (iface_combo form) (uibc_check form)
         (green_screen_check form) (hw_fixes_check form) (session_check form)
         (source_iface_combo form)
         (Text.strip (source_res_width form))
         (Text.strip (source_res_height form))
         (Text.strip (source_fps form))
         (Text.strip (source_bitrate form))
         (source_hw_fixes_check form) (source_session_check form).

(** A string does not start with whitespace. *)
Definition no_leading_space (s : string) : Prop :=
  match s with
  | String c _ => Text.isspace c = false
  | EmptyString => True
  end.

(** The option flags of the sink command, in the order they are added. *)
Definition sink_flags (form : Form) : list string :=
  ((if uibc_check form then ["-u"] else [])
   ++ (if green_screen_check form then ["-g"] else [])
   ++ (if hw_fixes_check form then [] else ["-n"])
   ++ (if session_check form then [] else ["-s"]))%list.

(** The two status queries of [check_services_status]. *)
Definition is_active_argv (service_name : string) : list string :=
  ["systemctl"; "is-active"; service_name].

(** The label text for a return code of [systemctl is-active]. *)
Definition service_status_text (returncode : Z) : string :=
  if (returncode =? 0)%Z then "Running" else "Stopped".

(** The [systemctl] action of [manage_service]. *)
Definition service_action (start : bool) : string :=
  if start then "start" else "stop".

(** The message [manage_service] shows for a failed action: what the
    command wrote to its standard error, or a fixed text when that is
    blank. *)
Definition service_failure_text
    (service_name : string) (start : bool) (stderr : string) : string :=
  if Text.nonempty (Text.strip stderr) then Text.strip stderr
  else "Failed to " ++ service_action start ++ " " ++ service_name.

(** * Properties *)

Open Scope list_scope.

(** ** The dict operations *)

Module DictFacts.

Import Dict.

Lemma get_None_keys k d : get k d = None ↔ k ∉ keys d.
Proof.
  induction d as [|[k' v] d IH]; simpl.
  - split; [intros _; apply not_elem_of_nil | done].
  - rewrite not_elem_of_cons. destruct (String.eqb_spec k k') as [->|Hne].
    + split; [done|]. intros [Hk _]. by destruct Hk.
    + rewrite IH. tauto.
Qed.

Lemma get_Some_elem k v d : get k d = Some v → (k, v) ∈ d.
Proof.
  induction d as [|[k' v'] d IH]; simpl; [done|].
  destruct (String.eqb_spec k k') as [->|]; intros H.
  - injection H as ->. apply list_elem_of_here.
  - apply list_elem_of_further; auto.
Qed.


Lemma get_set_eq k v d : get k (set k v d) = Some v.
Proof.
  induction d as [|[k' v'] d IH]; simpl.
  - by rewrite String.eqb_refl.
  - destruct (String.eqb_spec k k') as [->|Hne]; simpl.
    + by rewrite String.eqb_refl.
    + destruct (String.eqb_spec k k'); [done|exact IH].
Qed.

Lemma get_set_ne k k' v d : k ≠ k' → get k' (set k v d) = get k' d.
Proof.
  intros Hne. induction d as [|[k0 v0] d IH]; simpl.
  - destruct (String.eqb_spec k' k); [congruence|done].
  - destruct (String.eqb_spec k k0) as [->|]; simpl.
    + destruct (String.eqb_spec k' k0); [congruence|done].
    + destruct (String.eqb_spec k' k0); [done|exact IH].
Qed.

Lemma keys_set k v d :
  keys (set k v d) =
    match get k d with Some _ => keys d | None => (keys d ++ [k])%list end.
Proof.
  induction d as [|[k' v'] d IH]; simpl; [done|].
  destruct (String.eqb_spec k k') as [->|]; simpl; [done|].
  unfold keys in *. simpl. rewrite IH. by destruct (get k d).
Qed.

Lemma NoDup_keys_set k v d : NoDup (keys d) → NoDup (keys (set k v d)).
Proof.
  intros Hnd. rewrite keys_set. destruct (get k d) eqn:Hg; [done|].
  apply NoDup_app. split_and!; [done| |apply NoDup_singleton].
  intros x Hx Hx'. apply list_elem_of_singleton in Hx' as ->.
  by apply get_None_keys in Hg.
Qed.

Lemma pop_sublist k d : sublist (pop k d) d.
Proof.
  induction d as [|[k' v'] d IH]; simpl; [done|].
  destruct (String.eqb k k'); [by apply sublist_cons|by apply sublist_skip].
Qed.

Lemma NoDup_keys_pop k d : NoDup (keys d) → NoDup (keys (pop k d)).
Proof. intros H. eapply sublist_NoDup; [exact H|]. apply (fmap_sublist _), pop_sublist. Qed.

Lemma NoDup_values_pop k d : NoDup (values d) → NoDup (values (pop k d)).
Proof. intros H. eapply sublist_NoDup; [exact H|]. apply (fmap_sublist _), pop_sublist. Qed.

Lemma get_pop_eq k d : NoDup (keys d) → get k (pop k d) = None.
Proof.
  induction d as [|[k' v'] d IH]; simpl; [done|]. intros Hnd.
  apply NoDup_cons in Hnd as [Hk Hnd].
  destruct (String.eqb_spec k k') as [->|Hne]; simpl.
  - by apply get_None_keys.
  - destruct (String.eqb_spec k k'); [done|auto].
Qed.

Lemma get_pop_ne k k' d : k ≠ k' → get k' (pop k d) = get k' d.
Proof.
  intros Hne. induction d as [|[k0 v0] d IH]; simpl; [done|].
  destruct (String.eqb_spec k k0) as [->|]; simpl.
  - destruct (String.eqb_spec k' k0); [congruence|done].
  - destruct (String.eqb_spec k' k0); [done|exact IH].
Qed.

Lemma values_set_incl k v d x : x ∈ values (set k v d) → x = v ∨ x ∈ values d.
Proof.
  induction d as [|[k' v'] d IH]; simpl.
  - intros H. apply list_elem_of_singleton in H. by left.
  - destruct (String.eqb k k'); simpl; rewrite !elem_of_cons;
      (intros [H|H]; [tauto|try apply IH in H; tauto]).
Qed.

Lemma NoDup_values_set k v d :
  v ∉ values d → NoDup (values d) → NoDup (values (set k v d)).
Proof.
  induction d as [|[k' v'] d IH]; simpl; intros Hv Hnd.
  - apply NoDup_singleton.
  - apply not_elem_of_cons in Hv as [Hne Hv].
    apply NoDup_cons in Hnd as [Hv' Hnd].
    destruct (String.eqb k k'); simpl; apply NoDup_cons; split; auto.
    intros Hin. apply values_set_incl in Hin as [->|Hin]; done.
Qed.

Lemma values_pop_incl k d x : x ∈ values (pop k d) → x ∈ values d.
Proof. intros H. eapply elem_of_sublist; [exact H|]. apply (fmap_sublist _), pop_sublist. Qed.

End DictFacts.

(** ** The supervisor *)

Section Supervisor.

Variable env : Env.

Lemma set_status_label_frame name text g :
  same_registry g (exec (set_status_label name text) g)
  ∧ dialogs (exec (set_status_label name text) g) = dialogs g
  ∧ console (exec (set_status_label name text) g) = console g.
Proof.
  unfold set_status_label, same_registry, exec.
  destruct (String.eqb name "sink"); [done|].
  by destruct (String.eqb name "source").
Qed.

Lemma process_finished_frame name code g :
  same_registry g (exec (process_finished name code) g)
  ∧ dialogs (exec (process_finished name code) g) = dialogs g.
Proof.
  unfold process_finished, exec, bind, log, modify.
  destruct (negb (code =? 0)%Z); cbn -[set_status_label];
    match goal with |- context [set_status_label ?n ?t ?x] =>
      destruct (set_status_label_frame n t x) as ((?&?&?&?)&?&?) end;
    unfold exec, same_registry in *; cbn in *; split_and!; congruence.
Qed.

Lemma emit_finished_frame h code g :
  same_registry g (exec (emit_finished h code) g)
  ∧ dialogs (exec (emit_finished h code) g) = dialogs g.
Proof.
  unfold emit_finished, exec, bind, gets. cbn.
  destruct (heap g !! h); [apply process_finished_frame|done].
Qed.

Lemma state_of_set_state g h s h' :
  state_of (set_state h s g) h' =
    if decide (h = h') then
      match heap g !! h with Some _ => s | None => NotRunning end
    else state_of g h'.
Proof.
  unfold state_of, set_state. cbn. case_decide as Heq.
  - subst. rewrite list_lookup_alter_eq. by destruct (heap g !! h').
  - by rewrite list_lookup_alter_ne.
Qed.

Lemma state_of_heap g1 g2 h : heap g1 = heap g2 → state_of g1 h = state_of g2 h.
Proof. unfold state_of. by intros ->. Qed.

Lemma killed_of_heap g1 g2 h :
  heap g1 = heap g2 → killed_of g1 h = killed_of g2 h.
Proof. unfold killed_of. by intros ->. Qed.

Lemma state_of_lookup g1 g2 h :
  heap g1 !! h = heap g2 !! h → state_of g1 h = state_of g2 h.
Proof. unfold state_of. by intros ->. Qed.

Lemma killed_of_lookup g1 g2 h :
  heap g1 !! h = heap g2 !! h → killed_of g1 h = killed_of g2 h.
Proof. unfold killed_of. by intros ->. Qed.

Lemma killed_of_set_state g h s h' :
  killed_of (set_state h s g) h' = killed_of g h'.
Proof.
  unfold killed_of, set_state. cbn. destruct (decide (h = h')) as [->|Hne].
  - rewrite list_lookup_alter_eq. by destruct (heap g !! h').
  - by rewrite list_lookup_alter_ne.
Qed.

Lemma state_of_set_killed g h h' : state_of (set_killed h g) h' = state_of g h'.
Proof.
  unfold state_of, set_killed. cbn. destruct (decide (h = h')) as [->|Hne].
  - rewrite list_lookup_alter_eq. by destruct (heap g !! h').
  - by rewrite list_lookup_alter_ne.
Qed.

Lemma killed_of_set_killed g h :
  killed_of (set_killed h g) h = alive g h || killed_of g h.
Proof.
  unfold killed_of, alive, state_of, set_killed. cbn.
  rewrite list_lookup_alter_eq. by destruct (heap g !! h).
Qed.

Lemma lookup_set_state_ne g h s h' :
  h ≠ h' → heap (set_state h s g) !! h' = heap g !! h'.
Proof. intros Hne. unfold set_state. cbn. by rewrite list_lookup_alter_ne. Qed.

Lemma lookup_set_killed_ne g h h' :
  h ≠ h' → heap (set_killed h g) !! h' = heap g !! h'.
Proof. intros Hne. unfold set_killed. cbn. by rewrite list_lookup_alter_ne. Qed.

Lemma length_set_state g h s : length (heap (set_state h s g)) = length (heap g).
Proof. unfold set_state. cbn. apply length_alter. Qed.

Lemma length_set_killed g h : length (heap (set_killed h g)) = length (heap g).
Proof. unfold set_killed. cbn. apply length_alter. Qed.

Lemma state_of_stopped g h : state_of (set_state h NotRunning g) h = NotRunning.
Proof.
  rewrite state_of_set_state. rewrite decide_True by done.
  by destruct (heap g !! h).
Qed.

Lemma alive_stopped g h : state_of g h = NotRunning → alive g h = false.
Proof. unfold alive. intros ->. reflexivity. Qed.

Lemma waitForFinished_spec h msecs g :
  let r := waitForFinished env h msecs g in
  r.1 = exits_within env h msecs g
  ∧ processes r.2 = processes g
  ∧ heap r.2 = (if r.1 then heap (set_state h NotRunning g) else heap g)
  ∧ calls r.2 = calls g ++ [WaitForFinished h msecs]
  ∧ (elapsed g ≤ elapsed r.2 ≤ elapsed g + msecs)%N
  ∧ dialogs r.2 = dialogs g.
Proof.
  unfold waitForFinished, exits_within, alive, exit_of, killed_of, record,
    tick, bind, gets, modify, ret, state_of.
  cbn -[emit_finished].
  destruct (heap g !! h) as [[st slot k]|] eqn:Hh; cbn -[emit_finished].
  2:{ split_and!; try done; lia. }
  destruct st; cbn -[emit_finished]; rewrite ?Hh; cbn -[emit_finished].
  { split_and!; try done; lia. }
  all: destruct (if k then Some (kill_exit env h) else term_delay env h)
         as [[d code]|]; cbn -[emit_finished];
    [destruct (N.leb_spec d msecs); cbn -[emit_finished]|];
    try (split_and!; try done; lia).
  all: match goal with |- context [emit_finished ?a ?b ?x] =>
         pose proof (emit_finished_frame a b x) as F;
         unfold exec, same_registry in F;
         destruct (emit_finished a b x) as [u g2]
       end;
       cbn in *; destruct F as ((Hp&Hhp&Hc&He)&Hd); rewrite ?He;
       split_and!; first [reflexivity|congruence|lia].
Qed.

(** What one stop sequence does. *)
Lemma graceful_then_forced_spec msecs msg h g :
  let g' := exec (graceful_then_forced env msecs msg h) g in
  processes g' = processes g
  ∧ heap g' = heap (if exits_within env h msecs g
                    then set_state h NotRunning g else set_killed h g)
  ∧ calls g' = calls g ++ stop_calls env h msecs g
  ∧ (elapsed g ≤ elapsed g' ≤ elapsed g + msecs)%N
  ∧ dialogs g' = dialogs g.
Proof.
  unfold graceful_then_forced, stop_calls, terminate, record, modify, exec,
    bind.
  set (g1 := set_calls (calls g ++ [Terminate h]) g).
  pose proof (waitForFinished_spec h msecs g1) as Hw.
  change (exits_within env h msecs g1) with (exits_within env h msecs g) in Hw.
  destruct (waitForFinished env h msecs g1) as [finished g2].
  cbn [fst snd] in Hw. destruct Hw as (->&Hp&Hh&Hc&He&Hd).
  subst g1. cbn in Hp, Hh, Hc, He, Hd.
  destruct (exits_within env h msecs g); cbn [negb].
  - cbn. rewrite Hp, Hh, Hc, Hd, <- app_assoc. split_and!; try done; lia.
  - unfold kill, record, modify, bind, log, ret.
    destruct msg; cbn; rewrite Hp, Hh, Hc, Hd, <- !app_assoc;
      split_and!; try done; lia.
Qed.

Lemma keeps_registry_wf g g' : keeps_registry g g' → wf g → wf g'.
Proof. intros [Hp Hl] (?&?&?). unfold wf. rewrite Hp, Hl. done. Qed.

(** Equality of the registry and of the object count carries [wf]. *)
Lemma wf_transport g g' :
  processes g' = processes g → length (heap g') = length (heap g) →
  wf g → wf g'.
Proof. intros Hp Hl. apply keeps_registry_wf. by split. Qed.

Lemma graceful_then_forced_keeps msecs msg h g :
  keeps_registry g (exec (graceful_then_forced env msecs msg h) g).
Proof.
  destruct (graceful_then_forced_spec msecs msg h g) as (Hp&Hh&_).
  split; [done|]. rewrite Hh.
  destruct (exits_within env h msecs g);
    [apply length_set_state|apply length_set_killed].
Qed.

(** A stop sequence touches no other process. *)
Lemma graceful_then_forced_others msecs msg h g h' :
  h ≠ h' →
  heap (exec (graceful_then_forced env msecs msg h) g) !! h' = heap g !! h'.
Proof.
  intros Hne. destruct (graceful_then_forced_spec msecs msg h g) as (_&Hh&_).
  rewrite Hh. destruct (exits_within env h msecs g);
    [by apply lookup_set_state_ne|by apply lookup_set_killed_ne].
Qed.

(** After the stop sequence the child has exited or has been sent the
    kill signal. *)
Lemma graceful_then_forced_stopped msecs msg h g :
  stopped (exec (graceful_then_forced env msecs msg h) g) h.
Proof.
  destruct (graceful_then_forced_spec msecs msg h g) as (_&Hh&_).
  unfold stopped.
  rewrite (state_of_heap _ _ _ Hh), (killed_of_heap _ _ _ Hh).
  destruct (exits_within env h msecs g) eqn:Hex.
  - left. apply state_of_stopped.
  - rewrite state_of_set_killed, killed_of_set_killed.
    destruct (alive g h) eqn:Ha; [by right|left].
    unfold alive in Ha. apply bool_decide_eq_false in Ha.
    destruct (state_of g h); [reflexivity|..]; by destruct Ha.
Qed.

(** On the forced path the state of the process is the one it had. *)
Lemma graceful_then_forced_state msecs msg h g :
  state_of (exec (graceful_then_forced env msecs msg h) g) h
  = if exits_within env h msecs g then NotRunning else state_of g h.
Proof.
  destruct (graceful_then_forced_spec msecs msg h g) as (_&Hh&_).
  rewrite (state_of_heap _ _ _ Hh).
  destruct (exits_within env h msecs g);
    [apply state_of_stopped|apply state_of_set_killed].
Qed.

Lemma stop_registered_eq process_name g :
  exec (stop_registered env process_name) g =
    match Dict.get process_name (processes g) with
    | Some h =>
        exec (graceful_then_forced env 3000%N
                (Some "Process didn't terminate gracefully, forcing kill"%string) h) g
    | None => g
    end.
Proof.
  unfold stop_registered, exec, bind, gets.
  destruct (Dict.get process_name (processes g)); reflexivity.
Qed.

Lemma run_command_split cmd process_name g :
  run_command env (Some cmd) process_name g
  = launch env cmd process_name (exec (stop_registered env process_name) g).
Proof.
  rewrite stop_registered_eq.
  unfold run_command, exec.
  unfold bind at 1. unfold gets. cbv iota beta.
  destruct (Dict.get process_name (processes g)) as [h|].
  - change (bind (terminate h) _) with
      (graceful_then_forced env 3000%N
         (Some "Process didn't terminate gracefully, forcing kill"%string) h).
    unfold bind at 1.
    destruct (graceful_then_forced env 3000%N _ h g) as [u g1]. reflexivity.
  - reflexivity.
Qed.


Lemma alter_snoc {A} (f : A → A) (l : list A) (x : A) :
  alter f (length l) (l ++ [x]) = l ++ [f x].
Proof.
  replace (length l) with (length l + 0) by lia.
  by rewrite (alter_app_r f l [x] 0).
Qed.

Lemma launch_spec program arguments process_name g :
  let new := length (heap g) in
  let g' := exec (launch env (program :: arguments) process_name) g in
  calls g' = calls g ++ [Start new program arguments; WaitForStarted new 5000%N]
  ∧ processes g' =
      (if starts_within env new 5000%N
       then Dict.set process_name new (processes g)
       else Dict.pop process_name (Dict.set process_name new (processes g)))
  ∧ heap g' =
      heap g ++ [mkQProcess (state_after_start env new 5000%N) process_name false]
  ∧ dialogs g' = dialogs g
  ∧ (starts_within env new 5000%N = false →
     status_label process_name g' =
       (if String.eqb process_name "sink" then Some "Start Failed"%string
        else if String.eqb process_name "source" then Some "Start Failed"%string
        else None)).
Proof.
  unfold launch, new_QProcess, start, waitForStarted, starts_within,
    state_after_start, record, tick, set_state, exec, bind, gets, modify,
    ret, log.
  cbn -[Text.join set_status_label]. rewrite !alter_snoc. cbn -[Text.join set_status_label].
  destruct (start_delay env (length (heap g))) as [d|];
    cbn -[Text.join set_status_label];
    [destruct (d <=? 5000%N)%N; cbn -[Text.join set_status_label]|];
    rewrite ?alter_snoc; cbn -[Text.join set_status_label];
    rewrite <- ?app_assoc.
  - repeat split; try reflexivity. discriminate.
  - unfold set_status_label, status_label.
    destruct (String.eqb process_name "sink");
      [|destruct (String.eqb process_name "source")];
      repeat split; reflexivity.
  - unfold set_status_label, status_label.
    destruct (String.eqb process_name "sink");
      [|destruct (String.eqb process_name "source")];
      repeat split; reflexivity.
Qed.

Lemma launch_nil_spec process_name g :
  let new := length (heap g) in
  let g' := exec (launch env [] process_name) g in
  calls g' = calls g
  ∧ processes g' = Dict.pop process_name (Dict.set process_name new (processes g))
  ∧ heap g' = heap g ++ [mkQProcess NotRunning process_name false]
  ∧ dialogs g' = dialogs g.
Proof. by cbn. Qed.

Lemma wf_set_fresh name g g' :
  wf g →
  processes g' = Dict.set name (length (heap g)) (processes g) →
  length (heap g') = S (length (heap g)) →
  wf g'.
Proof.
  intros (Hk&Hv&Hb) Hp Hl. unfold wf. rewrite Hp, Hl. split_and!.
  - by apply DictFacts.NoDup_keys_set.
  - apply DictFacts.NoDup_values_set; [|done].
    intros Hin. apply Hb in Hin. lia.
  - intros h Hin.
    apply DictFacts.values_set_incl in Hin as [->|Hin]; [lia|].
    apply Hb in Hin. lia.
Qed.

Lemma wf_pop name g g' :
  wf g →
  processes g' = Dict.pop name (processes g) →
  length (heap g') = length (heap g) →
  wf g'.
Proof.
  intros (Hk&Hv&Hb) Hp Hl. unfold wf. rewrite Hp, Hl. split_and!.
  - by apply DictFacts.NoDup_keys_pop.
  - by apply DictFacts.NoDup_values_pop.
  - intros h Hin. apply Hb. by eapply DictFacts.values_pop_incl.
Qed.

Lemma launch_wf cmd process_name g :
  wf g → wf (exec (launch env cmd process_name) g).
Proof.
  intros Hwf.
  pose (g1 := set_heap (heap g ++ [mkQProcess NotRunning process_name false])
                (set_processes
                   (Dict.set process_name (length (heap g)) (processes g)) g)).
  assert (Hwf1 : wf g1).
  { apply (wf_set_fresh process_name g); [done|done|].
    cbn. rewrite length_app. cbn. lia. }
  destruct cmd as [|program arguments].
  - destruct (launch_nil_spec process_name g) as (_&Hp&Hh&_).
    apply (wf_pop process_name g1); [done|by rewrite Hp|].
    rewrite Hh. reflexivity.
  - destruct (launch_spec program arguments process_name g) as (_&Hp&Hh&_).
    destruct (starts_within env (length (heap g)) 5000%N).
    + apply (wf_set_fresh process_name g); [done|by rewrite Hp|].
      rewrite Hh, length_app. cbn. lia.
    + apply (wf_pop process_name g1); [done|by rewrite Hp|].
      rewrite Hh. cbn. by rewrite !length_app.
Qed.

Lemma stop_registered_keeps process_name g :
  keeps_registry g (exec (stop_registered env process_name) g).
Proof.
  unfold stop_registered, exec, bind, gets. cbn -[graceful_then_forced].
  destruct (Dict.get process_name (processes g)).
  - apply graceful_then_forced_keeps.
  - done.
Qed.

Lemma run_command_keeps_or_wf cmd process_name g :
  wf g → wf (exec (run_command env cmd process_name) g).
Proof.
  intros Hwf. destruct cmd as [cmd|]; [|exact Hwf].
  unfold exec. rewrite run_command_split. apply launch_wf.
  eapply keeps_registry_wf; [apply stop_registered_keeps|done].
Qed.

(** *** The other handlers leave the registry alone *)

(** [build_universal_cmd] changes nothing, or returns [None] after one
    error dialog. *)
Lemma build_universal_cmd_state form mode g :
  let r := build_universal_cmd env form mode g in
  (r.2 = g ∧ r.1 ≠ Returned None)
  ∨ (r.1 = Returned None ∧ ∃ msg, r.2 = set_dialogs (dialogs g ++ [msg]) g).
Proof.
  unfold build_universal_cmd, show_error, bind, modify, ret.
  destruct (String.eqb mode "sink"); [by left|].
  destruct (String.eqb mode "source"); [|by left].
  repeat match goal with
  | |- context [if ?b then _ else _] => destruct b
  | |- context [match ?x with Some _ => _ | None => _ end] => destruct x
  end; cbn; first [by left | right; split; [done|by eexists]].
Qed.

Lemma build_universal_cmd_keeps form mode g :
  keeps_registry g (build_universal_cmd env form mode g).2.
Proof.
  destruct (build_universal_cmd_state form mode g) as [[-> _]|[_ [msg ->]]];
    by split.
Qed.

Lemma stop_sink_service_registered h g :
  Dict.get "sink" (processes g) = Some h →
  exec (stop_sink_service env) g =
    exec (log "Stopped sink service" false)
      (set_sink_status_label "Not Running"
         (exec (graceful_then_forced env 3000%N
                  (Some "Process didn't terminate gracefully, forcing..."%string) h) g)).
Proof.
  intros Hget. unfold stop_sink_service, graceful_then_forced, exec, bind, gets.
  rewrite Hget. unfold terminate, record, modify.
  destruct (waitForFinished env h 3000%N _) as [[] g2]; reflexivity.
Qed.

Lemma stop_source_service_registered h g :
  Dict.get "source" (processes g) = Some h →
  exec (stop_source_service env) g =
    exec (log "Stopped source service" false)
      (set_source_status_label "Not Running"
         (exec (graceful_then_forced env 3000%N
                  (Some "Process didn't terminate gracefully, forcing..."%string) h) g)).
Proof.
  intros Hget. unfold stop_source_service, graceful_then_forced, exec, bind, gets.
  rewrite Hget. unfold terminate, record, modify.
  destruct (waitForFinished env h 3000%N _) as [[] g2]; reflexivity.
Qed.

Lemma stop_sink_service_unregistered g :
  Dict.get "sink" (processes g) = None → stop_sink_service env g = (tt, g).
Proof.
  intros Hget. unfold stop_sink_service, bind, gets. by rewrite Hget.
Qed.

Lemma stop_source_service_unregistered g :
  Dict.get "source" (processes g) = None → stop_source_service env g = (tt, g).
Proof.
  intros Hget. unfold stop_source_service, bind, gets. by rewrite Hget.
Qed.

Lemma stop_sink_service_keeps g :
  keeps_registry g (exec (stop_sink_service env) g).
Proof.
  destruct (Dict.get "sink" (processes g)) as [h|] eqn:Hget.
  - rewrite (stop_sink_service_registered h g Hget).
    apply (graceful_then_forced_keeps 3000%N _ h g).
  - unfold exec. by rewrite stop_sink_service_unregistered.
Qed.

Lemma stop_source_service_keeps g :
  keeps_registry g (exec (stop_source_service env) g).
Proof.
  destruct (Dict.get "source" (processes g)) as [h|] eqn:Hget.
  - rewrite (stop_source_service_registered h g Hget).
    apply (graceful_then_forced_keeps 3000%N _ h g).
  - unfold exec. by rewrite stop_source_service_unregistered.
Qed.

Lemma check_services_status_frame g :
  let g' := exec (check_services_status env) g in
  processes g' = processes g ∧ heap g' = heap g ∧ dialogs g' = dialogs g.
Proof.
  unfold check_services_status, record, log, exec, bind, gets, modify. cbn.
  repeat match goal with
  | |- context [match ?x with inl _ => _ | inr _ => _ end] => destruct x
  end; done.
Qed.

Lemma check_services_status_calls g :
  ∃ rest, calls (exec (check_services_status env) g) = calls g ++ rest.
Proof.
  unfold check_services_status, record, log, exec, bind, gets, modify. cbn.
  repeat match goal with
  | |- context [match ?x with inl _ => _ | inr _ => _ end] => destruct x
  end; cbn; rewrite <- ?app_assoc; by eexists.
Qed.

Lemma manage_service_frame service_name start g :
  let g' := exec (manage_service env service_name start) g in
  processes g' = processes g ∧ heap g' = heap g.
Proof.
  unfold manage_service, show_error, record, log, exec, bind, gets, modify.
  destruct (negb (service_name_match service_name)); [done|].
  destruct (negb (existsb _ _)); [done|].
  cbn -[check_services_status Text.strip].
  destruct (run_result env _ _) as [e|[rc err]]; [done|].
  destruct (rc =? 0)%Z; [|done].
  cbn -[check_services_status].
  match goal with |- context [check_services_status env ?x] =>
    destruct (check_services_status_frame x) as (Hp&Hh&_) end.
  unfold exec in *. by rewrite Hp, Hh.
Qed.

Lemma child_exited_keeps h code g : keeps_registry g (exec (child_exited h code) g).
Proof.
  unfold child_exited, exec, bind, gets, modify. cbn -[emit_finished].
  destruct (bool_decide _); [|done]. cbn -[emit_finished].
  match goal with |- context [emit_finished ?a ?b ?x] =>
    destruct (emit_finished_frame a b x) as ((Hp&Hh&_)&_) end.
  unfold exec in *. split; [by rewrite Hp|]. rewrite Hh. cbn. apply length_alter.
Qed.

Lemma start_sink_service_built form g cmd g1 :
  Text.nonempty (iface_combo form) = true →
  build_universal_cmd env form "sink" g = (Returned cmd, g1) →
  exec (start_sink_service env form) g =
    exec (log ("Started sink mode with universal script on "
               ++ iface_combo form) false)
      (set_sink_status_label "Running" (exec (run_command env cmd "sink") g1)).
Proof.
  intros Hi Hb. unfold start_sink_service, exec. rewrite Hi. cbn [negb].
  unfold bind at 1. rewrite Hb. unfold bind, modify.
  destruct (run_command env cmd "sink" g1) as [u g2]. reflexivity.
Qed.

Lemma start_source_service_built form g cmd g1 :
  Text.nonempty (source_iface_combo form) = true →
  build_universal_cmd env form "source" g = (Returned cmd, g1) →
  exec (start_source_service env form) g =
    exec (log ("Started source mode with universal script on "
               ++ source_iface_combo form) false)
      (set_source_status_label "Running"
         (exec (run_command env cmd "source") g1)).
Proof.
  intros Hi Hb. unfold start_source_service, exec. rewrite Hi. cbn [negb].
  unfold bind at 1. rewrite Hb. unfold bind, modify.
  destruct (run_command env cmd "source" g1) as [u g2]. reflexivity.
Qed.

Lemma start_sink_service_wf form g :
  wf g → wf (exec (start_sink_service env form) g).
Proof.
  intros Hwf.
  destruct (Text.nonempty (iface_combo form)) eqn:Hi.
  - pose proof (build_universal_cmd_keeps form "sink" g) as Hb.
    destruct (build_universal_cmd env form "sink" g) as [[cmd|e] g1] eqn:Hbuild.
    + rewrite (start_sink_service_built form g cmd g1 Hi Hbuild).
      apply (wf_transport (exec (run_command env cmd "sink") g1));
        [reflexivity|reflexivity|].
      apply run_command_keeps_or_wf. by eapply keeps_registry_wf.
    + unfold start_sink_service, exec. rewrite Hi. cbn [negb].
      unfold bind. rewrite Hbuild. by eapply keeps_registry_wf.
  - unfold start_sink_service, exec. rewrite Hi. exact Hwf.
Qed.

Lemma start_source_service_wf form g :
  wf g → wf (exec (start_source_service env form) g).
Proof.
  intros Hwf.
  destruct (Text.nonempty (source_iface_combo form)) eqn:Hi.
  - pose proof (build_universal_cmd_keeps form "source" g) as Hb.
    destruct (build_universal_cmd env form "source" g) as [[cmd|e] g1] eqn:Hbuild.
    + rewrite (start_source_service_built form g cmd g1 Hi Hbuild).
      apply (wf_transport (exec (run_command env cmd "source") g1));
        [reflexivity|reflexivity|].
      apply run_command_keeps_or_wf. by eapply keeps_registry_wf.
    + unfold start_source_service, exec. rewrite Hi. cbn [negb].
      unfold bind. rewrite Hbuild. by eapply keeps_registry_wf.
  - unfold start_source_service, exec. rewrite Hi. exact Hwf.
Qed.

Lemma dispatch_wf e g : wf g → wf (exec (dispatch env e) g).
Proof.
  intros Hwf. destruct e as [form| |form| |name st| |h code]; cbn [dispatch].
  - by apply start_sink_service_wf.
  - eapply keeps_registry_wf; [apply stop_sink_service_keeps|done].
  - by apply start_source_service_wf.
  - eapply keeps_registry_wf; [apply stop_source_service_keeps|done].
  - destruct (manage_service_frame name st g) as [Hp Hh].
    eapply wf_transport; [exact Hp|by rewrite Hh|done].
  - destruct (check_services_status_frame g) as (Hp&Hh&_).
    eapply wf_transport; [exact Hp|by rewrite Hh|done].
  - eapply keeps_registry_wf; [apply child_exited_keeps|done].
Qed.

Lemma event_loop_wf events g : wf g → wf (event_loop env events g).
Proof.
  revert g. induction events as [|e events IH]; intros g Hwf; cbn; [done|].
  apply IH, dispatch_wf, Hwf.
Qed.

Lemma init_wf : wf init.
Proof.
  unfold wf. cbn. split_and!; [apply NoDup_nil_2|apply NoDup_nil_2|].
  intros h Hin. by apply elem_of_nil in Hin.
Qed.


End Supervisor.

(** ** The claims of the specification *)

Section Claims.

Variable env : Env.

Lemma stop_handler_cases role stop :
  stop_handler env role = Some stop →
  (role = "sink"%string ∧ stop = stop_sink_service env)
  ∨ (role = "source"%string ∧ stop = stop_source_service env).
Proof.
  unfold stop_handler.
  destruct (String.eqb_spec role "sink") as [->|]; [intros [= <-]; by left|].
  destruct (String.eqb_spec role "source") as [->|]; [intros [= <-]; by right|].
  done.
Qed.

Lemma nonempty_isdigit s : Text.nonempty s && Text.isdigit s = Text.isdigit s.
Proof. by destruct s. Qed.

Lemma nonempty_isdigit_pair w h :
  Text.nonempty w && Text.nonempty h && Text.isdigit w && Text.isdigit h
  = Text.isdigit w && Text.isdigit h.
Proof. destruct w, h; cbn; try done. by rewrite andb_false_r. Qed.

(** The source branch of [build_universal_cmd] computes the result of the
    specification, and shows a dialog exactly when it returns [None]. *)
Lemma build_source_refines form g :
  (build_universal_cmd env form "source" g).1
  = SourceOptions.source_cmd_spec env form
  ∧ (SourceOptions.rejected env form = false →
     (build_universal_cmd env form "source" g).2 = g)
  ∧ (SourceOptions.rejected env form = true →
     ∃ msg, (build_universal_cmd env form "source" g).2
            = set_dialogs (dialogs g ++ [msg]) g).
Proof.
  unfold build_universal_cmd, SourceOptions.source_cmd_spec,
    SourceOptions.rejected, SourceOptions.raises, SourceOptions.first_fault,
    SourceOptions.resolution, SourceOptions.fps, SourceOptions.bitrate,
    SourceOptions.ranged, SourceOptions.resolution_given,
    SourceOptions.resolution_valid, SourceOptions.numeric,
    SourceOptions.readable, SourceOptions.within, SourceOptions.value,
    show_error, bind, modify, ret.
  cbn [String.eqb Ascii.eqb Bool.eqb].
  rewrite nonempty_isdigit_pair, !nonempty_isdigit.
  generalize (Text.strip (source_res_width form))
    (Text.strip (source_res_height form)) (Text.strip (source_fps form))
    (Text.strip (source_bitrate form)).
  intros w h fps bitrate.
  generalize (Text.int (int_max_str_digits env) w)
    (Text.int (int_max_str_digits env) h)
    (Text.int (int_max_str_digits env) fps)
    (Text.int (int_max_str_digits env) bitrate).
  intros vw vh vf vb.
  destruct (source_hw_fixes_check form), (source_session_check form);
    destruct (Text.isdigit w), (Text.isdigit h); cbn;
    try destruct vw as [vw|]; try destruct vh as [vh|]; cbn;
    repeat match goal with
    | |- context [if ?b then _ else _] =>
        lazymatch b with
        | context [if _ then _ else _] => fail
        | context [match _ with _ => _ end] => fail
        | _ => destruct b; cbn
        end
    | |- context [match ?x with Some _ => _ | None => _ end] =>
        is_var x; destruct x; cbn
    end;
    (split_and!;
     [reflexivity
     |first [discriminate|intros _; reflexivity]
     |first [discriminate|intros _; by eexists]]).
Qed.

Lemma rejected_spec form :
  SourceOptions.rejected env form = true →
  SourceOptions.source_cmd_spec env form = Returned None.
Proof.
  unfold SourceOptions.source_cmd_spec, SourceOptions.rejected,
    SourceOptions.raises.
  by destruct (SourceOptions.first_fault env form) as [[]|].
Qed.

Lemma raises_spec form :
  SourceOptions.raises env form = true →
  SourceOptions.source_cmd_spec env form = Raised "ValueError".
Proof.
  unfold SourceOptions.source_cmd_spec, SourceOptions.raises.
  by destruct (SourceOptions.first_fault env form) as [[]|].
Qed.

(** C7. Stopping a role that has no registered process does nothing: the
    handler returns at once and the whole window state, with the registry,
    the status labels, the console, the calls made on processes and the
    time spent waiting, is the one it started from. *)
Theorem stop_unregistered_is_noop (role : string) (stop : M unit) (g : GUI) :
  stop_handler env role = Some stop →
  Dict.get role (processes g) = None →
  stop g = (tt, g).
Proof.
  intros Hstop Hget.
  destruct (stop_handler_cases role stop Hstop) as [[-> ->]|[-> ->]].
  - by apply stop_sink_service_unregistered.
  - by apply stop_source_service_unregistered.
Qed.

(** C9. A start request with an empty interface selection shows the error
    "Select network interface first" and returns: the state differs from
    the initial one in that dialog only, so no command was built, no
    process created, and the registry and the status are unchanged. *)
Theorem start_without_interface_rejected
    (form : Form) (role : string) (start : M unit) (g : GUI) :
  start_handler env form role = Some start →
  selected_interface form role = Some ""%string →
  start g
  = (tt, set_dialogs (dialogs g ++ ["Select network interface first"%string]) g).
Proof.
  unfold start_handler, selected_interface.
  destruct (String.eqb role "sink").
  - intros [= <-] [= Hi]. unfold start_sink_service. by rewrite Hi.
  - destruct (String.eqb role "source"); [|done].
    intros [= <-] [= Hi]. unfold start_source_service. by rewrite Hi.
Qed.

Lemma manage_service_invalid service_name start g :
  service_name ∉ allowed_services ∨ service_name_match service_name = false →
  ∃ error_msg,
    exec (manage_service env service_name start) g
    = set_console (console g ++ [(true, error_msg)])
        (set_dialogs (dialogs g ++ [error_msg]) g).
Proof.
  intros Hbad. unfold manage_service, exec.
  destruct (service_name_match service_name) eqn:Hm; cbn [negb].
  - destruct Hbad as [Hnot|]; [|done].
    destruct (existsb (String.eqb service_name) allowed_services) eqn:Hex.
    + exfalso. apply Hnot. apply existsb_exists in Hex as (x & Hin & Heq).
      apply String.eqb_eq in Heq as ->. by apply list_elem_of_In.
    + cbn [negb]. by eexists.
  - by eexists.
Qed.

(** The whitelisted names match the pattern. *)
Lemma allowed_services_match service_name :
  service_name ∈ allowed_services →
  service_name_match service_name = true
  ∧ existsb (String.eqb service_name) allowed_services = true.
Proof.
  intros Hin. unfold allowed_services in Hin.
  repeat (apply elem_of_cons in Hin as [->|Hin]);
    [| | |by apply elem_of_nil in Hin]; by vm_compute.
Qed.

(** A whitelisted name does reach [systemctl]. *)
Lemma manage_service_allowed service_name start g :
  service_name ∈ allowed_services →
  ∃ rest,
    calls (exec (manage_service env service_name start) g)
    = calls g
      ++ SubprocessRun ["sudo"; "systemctl"; if start then "start" else "stop";
                        service_name]%string :: rest.
Proof.
  intros Hin. destruct (allowed_services_match service_name Hin) as [Hm Hex].
  unfold manage_service, exec. rewrite Hm, Hex. cbn [negb].
  unfold bind at 1. unfold gets. unfold bind at 1. unfold record, modify.
  destruct (run_result env _ _) as [e|[rc err]].
  - exists []. reflexivity.
  - destruct (rc =? 0)%Z.
    + unfold bind at 1. unfold log, modify.
      match goal with |- context [check_services_status env ?x] =>
        destruct (check_services_status_calls env x) as [rest Hrest] end.
      unfold exec in Hrest. cbn [calls set_console set_calls] in Hrest.
      exists rest. rewrite Hrest, <- app_assoc. reflexivity.
    + exists []. reflexivity.
Qed.

(** C10. For a service name outside the whitelist, or one that does not
    match the pattern, [manage_service] shows and logs a validation error
    and returns without any system command, whether asked to start or to
    stop: the state differs from the initial one in the dialog and the
    error line only. *)
Theorem manage_service_rejects_unlisted
    (service_name : string) (start : bool) (g : GUI) :
  service_name ∉ allowed_services ∨ service_name_match service_name = false →
  ∃ error_msg,
    exec (manage_service env service_name start) g
    = set_console (console g ++ [(true, error_msg)])
        (set_dialogs (dialogs g ++ [error_msg]) g)
    ∧ calls (exec (manage_service env service_name start) g) = calls g.
Proof.
  intros Hbad.
  destruct (manage_service_invalid service_name start g Hbad) as [msg Hmsg].
  exists msg. split; [exact Hmsg|]. by rewrite Hmsg.
Qed.

(** C6. A malformed request is turned down on the spot: the handler shows
    an error dialog and logs an error line, and it creates no process,
    calls nothing on any process or on the system, and leaves the registry
    as it was. *)
Theorem malformed_input_rejected (e : Event) (g : GUI) :
  malformed env e →
  let g' := exec (dispatch env e) g in
  processes g' = processes g
  ∧ heap g' = heap g
  ∧ calls g' = calls g
  ∧ (∃ msg, dialogs g' = dialogs g ++ [msg])
  ∧ (∃ line rest, console g' = console g ++ (true, line) :: rest).
Proof.
  destruct e as [form| |form| |name st| |h code]; cbn [malformed dispatch];
    try done.
  - intros [Hi Hrej].
    destruct (build_source_refines form g) as (Hb & _ & Hmsg).
    destruct (Hmsg Hrej) as [msg Hg1].
    rewrite (rejected_spec form Hrej) in Hb.
    assert (Hbuilt : build_universal_cmd env form "source" g
                     = (Returned None, set_dialogs (dialogs g ++ [msg]) g)).
    { destruct (build_universal_cmd env form "source" g) as [r g1].
      cbn [fst snd] in Hb, Hg1. by rewrite Hb, Hg1. }
    rewrite (start_source_service_built env form g None _ Hi Hbuilt).
    cbn. split_and!; try done.
    + by exists msg.
    + eexists _, _. rewrite <- app_assoc. reflexivity.
  - intros Hbad.
    destruct (manage_service_invalid name st g Hbad) as [msg ->].
    cbn. split_and!; try done.
    + by exists msg.
    + by exists msg, [].
Qed.


(** C2, as the code has it. Stopping a role with a registered process
    requests termination, waits up to 3000 ms, and calls [kill] exactly
    when the wait reports no exit; on both paths the status label of the
    role reads "Not Running", nothing was waited for longer than 3000 ms,
    and the registry is what it was: the entry of the role stays, bound to
    the same process. *)
Theorem stop_registered_process (role : string) (stop : M unit) (h : nat) (g : GUI) :
  stop_handler env role = Some stop →
  Dict.get role (processes g) = Some h →
  let g' := exec stop g in
  calls g' = calls g ++ stop_calls env h 3000 g
  ∧ status_label role g' = Some "Not Running"%string
  ∧ (elapsed g ≤ elapsed g' ≤ elapsed g + 3000)%N
  ∧ processes g' = processes g
  ∧ Dict.get role (processes g') = Some h.
Proof.
  intros Hstop Hget.
  destruct (graceful_then_forced_spec env 3000
    (Some "Process didn't terminate gracefully, forcing..."%string) h g)
    as (Hp&Hh&Hc&He&_).
  destruct (stop_handler_cases role stop Hstop) as [[-> ->]|[-> ->]]; cbn zeta.
  - rewrite (stop_sink_service_registered env h g Hget).
    cbn [exec log modify snd calls processes elapsed status_label String.eqb
         Ascii.eqb Bool.eqb set_console set_sink_status_label
         sink_status_label].
    rewrite Hp, Hc. split_and!; try done; try apply He.
  - rewrite (stop_source_service_registered env h g Hget).
    cbn [exec log modify snd calls processes elapsed status_label String.eqb
         Ascii.eqb Bool.eqb set_console set_source_status_label
         source_status_label].
    rewrite Hp, Hc. split_and!; try done; try apply He.
Qed.

Lemma child_exited_running h p exit_code g :
  heap g !! h = Some p →
  state p ≠ NotRunning →
  exec (child_exited h exit_code) g
  = exec (process_finished (finished_slot p) exit_code)
      (set_state h NotRunning g).
Proof.
  intros Hh Hst. unfold child_exited, exec, bind, gets.
  assert (Hs : state_of g h = state p) by (unfold state_of; by rewrite Hh).
  rewrite Hs, bool_decide_eq_true_2 by done.
  unfold modify, emit_finished, bind, gets.
  cbn [heap set_state set_heap]. rewrite list_lookup_alter_eq, Hh.
  reflexivity.
Qed.

(** C4, as the code has it. When a running process started for a role
    exits on its own, the status label of the role reads "Not Running" for
    exit code zero and "Error" otherwise, the console gets the matching
    line, which carries the exit code when it is not zero, and the process
    is not running; the registry is what it was, the entry of the role
    included. *)
Theorem own_exit_reported
    (role : string) (h : nat) (p : QProcess) (exit_code : Z) (g : GUI) :
  role = "sink"%string ∨ role = "source"%string →
  heap g !! h = Some p →
  finished_slot p = role →
  state p ≠ NotRunning →
  let g' := exec (child_exited h exit_code) g in
  status_label role g'
    = Some (if (exit_code =? 0)%Z then "Not Running" else "Error")%string
  ∧ console g'
    = console g
      ++ [if (exit_code =? 0)%Z
          then (false, ("Process '" ++ role ++ "' completed successfully")%string)
          else (true, ("Process '" ++ role ++ "' exited with code "
                       ++ pretty exit_code)%string)]
  ∧ alive g' h = false
  ∧ calls g' = calls g
  ∧ processes g' = processes g.
Proof.
  intros Hrole Hh Hslot Hst. cbn zeta.
  rewrite (child_exited_running h p exit_code g Hh Hst), Hslot.
  assert (Halive : ∀ x, heap x = heap (set_state h NotRunning g) →
                        alive x h = false).
  { intros x Hx. apply alive_stopped. rewrite (state_of_heap _ _ _ Hx).
    apply state_of_stopped. }
  unfold process_finished, exec, bind, log, modify.
  destruct (exit_code =? 0)%Z; cbn [negb];
    destruct Hrole as [-> | ->]; cbn; split_and!; try done;
    by apply Halive.
Qed.

(** *** Teardown *)

Lemma cleanup_on_exit_loop g :
  cleanup_on_exit env g = for_each (processes g) (cleanup_entry env) g.
Proof. reflexivity. Qed.

Lemma cleanup_entry_live name h g :
  alive g h = true →
  exec (cleanup_entry env (name, h)) g
  = exec (graceful_then_forced env 2000 None h)
      (exec (log ("Cleaning up process: " ++ name) false) g).
Proof.
  unfold alive. intros Ha.
  unfold cleanup_entry, graceful_then_forced, exec, bind, gets.
  cbn [fst snd]. rewrite Ha.
  unfold log, terminate, record, modify.
  destruct (waitForFinished env h 2000 _) as [[] g2]; reflexivity.
Qed.

Lemma cleanup_entry_dead name h g :
  alive g h = false → cleanup_entry env (name, h) g = (tt, g).
Proof.
  unfold alive. intros Ha. unfold cleanup_entry, bind, gets.
  cbn [fst snd]. by rewrite Ha.
Qed.

Lemma alive_false_state g h : alive g h = false → state_of g h = NotRunning.
Proof.
  unfold alive. intros Ha. apply bool_decide_eq_false in Ha.
  destruct (state_of g h); [reflexivity|..]; by destruct Ha.
Qed.

Lemma stopped_lookup g1 g2 h :
  heap g1 !! h = heap g2 !! h → stopped g2 h → stopped g1 h.
Proof.
  intros Hl. unfold stopped.
  by rewrite (state_of_lookup _ _ _ Hl), (killed_of_lookup _ _ _ Hl).
Qed.

Lemma cleanup_entry_spec name h g :
  let g' := exec (cleanup_entry env (name, h)) g in
  processes g' = processes g
  ∧ calls g' = calls g ++ cleanup_calls env g (name, h)
  ∧ (elapsed g ≤ elapsed g' ≤ elapsed g + 2000)%N
  ∧ stopped g' h
  ∧ (∀ h', h' ≠ h → heap g' !! h' = heap g !! h').
Proof.
  cbn zeta. unfold cleanup_calls. cbn [snd].
  destruct (alive g h) eqn:Ha.
  - rewrite (cleanup_entry_live name h g Ha).
    set (g1 := exec (log ("Cleaning up process: " ++ name) false) g).
    destruct (graceful_then_forced_spec env 2000 None h g1) as (Hp&Hh&Hc&He&_).
    rewrite Hp, Hc. split_and!; try done; try apply He.
    + apply graceful_then_forced_stopped.
    + intros h' Hne. by rewrite graceful_then_forced_others.
  - unfold exec. rewrite (cleanup_entry_dead name h g Ha). cbn [snd].
    rewrite app_nil_r. split_and!; try done; try lia.
    left. by apply alive_false_state.
Qed.

Lemma cleanup_calls_ext g1 g2 item :
  heap g1 !! item.2 = heap g2 !! item.2 →
  cleanup_calls env g1 item = cleanup_calls env g2 item.
Proof.
  intros Hl.
  unfold cleanup_calls, stop_calls, exits_within, exit_of, alive.
  by rewrite (state_of_lookup _ _ _ Hl), (killed_of_lookup _ _ _ Hl).
Qed.

Lemma for_each_cons {A} (x : A) l (body : A → M unit) g :
  exec (for_each (x :: l) body) g = exec (for_each l body) (exec (body x) g).
Proof.
  unfold exec. cbn [for_each]. unfold bind. by destruct (body x g).
Qed.

Lemma cleanup_loop_spec d :
  NoDup (Dict.values d) →
  ∀ g,
    let g' := exec (for_each d (cleanup_entry env)) g in
    processes g' = processes g
    ∧ calls g' = calls g ++ concat (map (cleanup_calls env g) d)
    ∧ (elapsed g ≤ elapsed g' ≤ elapsed g + 2000 * N.of_nat (length d))%N
    ∧ (∀ h, h ∈ Dict.values d → stopped g' h)
    ∧ (∀ h, h ∉ Dict.values d → heap g' !! h = heap g !! h).
Proof.
  induction d as [|[name h] d IH]; intros Hnd g; cbn zeta.
  - cbn. rewrite app_nil_r. split_and!; try done; try lia.
    intros h Hin. by apply elem_of_nil in Hin.
  - cbn [Dict.values map snd] in Hnd. apply NoDup_cons in Hnd as [Hh Hnd].
    rewrite for_each_cons.
    destruct (cleanup_entry_spec name h g) as (Hp1&Hc1&He1&Hs1&Hf1).
    set (g1 := exec (cleanup_entry env (name, h)) g) in *.
    destruct (IH Hnd g1) as (Hp&Hc&He&Hs&Hf).
    assert (Hmap : map (cleanup_calls env g1) d = map (cleanup_calls env g) d).
    { apply map_ext_in. intros [n h'] Hin. apply cleanup_calls_ext. cbn [snd].
      apply Hf1. intros ->. apply Hh.
      apply list_elem_of_In in Hin.
      apply (list_elem_of_fmap_2 snd) in Hin. exact Hin. }
    rewrite Hp, Hc, Hc1, Hmap, Hp1. cbn [map concat length].
    rewrite <- app_assoc. split_and!; try done; try lia.
    + intros h0 Hin. cbn [Dict.values map snd] in Hin.
      apply elem_of_cons in Hin as [->|Hin]; [|by apply Hs].
      eapply stopped_lookup; [apply Hf; exact Hh|exact Hs1].
    + intros h0 Hin. cbn [Dict.values map snd] in Hin.
      apply not_elem_of_cons in Hin as [Hne Hin].
      rewrite Hf by exact Hin. by apply Hf1.
Qed.

(** C5. The hook that [__init__] registers with [atexit] runs once, after
    the event loop. Whatever the events were, it stops every registry entry
    that is still running with a termination request, a wait of at most
    2000 ms and a kill when the wait reports no exit; afterwards every
    registered process has exited or has been sent the kill signal, which
    it cannot refuse, and the waits add up to at most 2000 ms per entry. *)
Theorem cleanup_on_exit_stops_all (events : list Event) :
  let g := event_loop env events init in
  let g' := main env events in
  (∀ role h, (role, h) ∈ processes g' → stopped g' h)
  ∧ processes g' = processes g
  ∧ calls g' = calls g ++ concat (map (cleanup_calls env g) (processes g))
  ∧ (elapsed g ≤ elapsed g'
     ≤ elapsed g + 2000 * N.of_nat (length (processes g)))%N.
Proof.
  cbn zeta. unfold main, exec. rewrite cleanup_on_exit_loop.
  set (g := event_loop env events init).
  destruct (event_loop_wf env events init (init_wf)) as (_&Hnd&_).
  fold g in Hnd.
  destruct (cleanup_loop_spec (processes g) Hnd g) as (Hp&Hc&He&Hs&_).
  unfold exec in *. split_and!; try done; try apply He.
  intros role h Hin. rewrite Hp in Hin. apply Hs.
  apply (list_elem_of_fmap_2 snd) in Hin. exact Hin.
Qed.

(** *** One process per role *)



(** The calls that launch a command on a new handle. *)
Lemma launch_calls cmd role g :
  calls (exec (launch env cmd role) g)
  = calls g
    ++ match cmd with
       | program :: arguments =>
           [Start (length (heap g)) program arguments;
            WaitForStarted (length (heap g)) 5000%N]
       | [] => []
       end.
Proof.
  destruct cmd as [|program arguments].
  - destruct (launch_nil_spec env role g) as (->&_). by rewrite app_nil_r.
  - by destruct (launch_spec env program arguments role g) as (->&_).
Qed.

(** A launch appends one object to the store and touches no other. *)
Lemma launch_heap cmd role g :
  ∃ p, heap (exec (launch env cmd role) g) = heap g ++ [p].
Proof.
  destruct cmd as [|program arguments].
  - destruct (launch_nil_spec env role g) as (_&_&->&_). by eexists.
  - destruct (launch_spec env program arguments role g) as (_&_&->&_).
    by eexists.
Qed.

(** After a launch the role is bound to the new handle or to none. *)
Lemma launch_registry cmd role g :
  NoDup (Dict.keys (processes g)) →
  Dict.get role (processes (exec (launch env cmd role) g))
  = match cmd with
    | program :: arguments =>
        if starts_within env (length (heap g)) 5000
        then Some (length (heap g)) else None
    | [] => None
    end.
Proof.
  intros Hk.
  assert (Hpop : Dict.get role (Dict.pop role
                   (Dict.set role (length (heap g)) (processes g))) = None).
  { apply DictFacts.get_pop_eq. by apply DictFacts.NoDup_keys_set. }
  destruct cmd as [|program arguments].
  - by destruct (launch_nil_spec env role g) as (_&->&_).
  - destruct (launch_spec env program arguments role g) as (_&->&_).
    destruct (starts_within env (length (heap g)) 5000); [|done].
    apply DictFacts.get_set_eq.
Qed.


(** *** A start that fails *)

(** [run_command] alone: when the new process does not report started
    within 5000 ms, the role has no entry in the registry and its status
    label reads "Start Failed". *)
Lemma run_command_start_failed program arguments role g :
  wf g →
  role = "sink"%string ∨ role = "source"%string →
  let g1 := exec (stop_registered env role) g in
  starts_within env (length (heap g1)) 5000 = false →
  let g' := exec (run_command env (Some (program :: arguments)) role) g in
  Dict.get role (processes g') = None
  ∧ status_label role g' = Some "Start Failed"%string.
Proof.
  intros Hwf Hrole g1 Hfail. cbn zeta.
  assert (Hg' : exec (run_command env (Some (program :: arguments)) role) g
                = exec (launch env (program :: arguments) role) g1).
  { unfold exec at 1. by rewrite run_command_split. }
  rewrite Hg'.
  assert (Hwf1 : wf g1).
  { eapply keeps_registry_wf; [apply stop_registered_keeps|done]. }
  split.
  - rewrite launch_registry by apply Hwf1. by rewrite Hfail.
  - destruct (launch_spec env program arguments role g1) as (_&_&_&_&Hst).
    rewrite (Hst Hfail). by destruct Hrole as [-> | ->].
Qed.

End Claims.

(** ** The claims on concrete runs *)

(** C7 at the initial window: no sink was started, the Stop button of the
    sink changes nothing. *)
Lemma stop_unregistered_is_noop_witness :
  stop_handler Scenario.cooperative "sink"
    = Some (stop_sink_service Scenario.cooperative)
  ∧ Dict.get "sink" (processes init) = None
  ∧ stop_sink_service Scenario.cooperative init = (tt, init).
Proof.
  split_and!; [reflexivity|reflexivity|].
  apply (stop_unregistered_is_noop Scenario.cooperative "sink"); reflexivity.
Defined.

(** C9 with no interface selected. *)
Lemma start_without_interface_rejected_witness :
  selected_interface Scenario.no_interface "source" = Some ""
  ∧ start_source_service Scenario.cooperative Scenario.no_interface init
    = (tt, set_dialogs ["Select network interface first"] init).
Proof.
  split; [reflexivity|].
  apply (start_without_interface_rejected Scenario.cooperative
           Scenario.no_interface "source"); reflexivity.
Defined.

(** C10 for a well-formed name that is not whitelisted. *)
Lemma manage_service_rejects_unlisted_witness :
  service_name_match "sshd" = true
  ∧ ("sshd" ∉ allowed_services)
  ∧ calls (exec (manage_service Scenario.cooperative "sshd" false) init) = [].
Proof.
  assert (Hnot : "sshd" ∉ allowed_services).
  { apply (bool_decide_unpack _). vm_compute. exact I. }
  split_and!; [reflexivity|exact Hnot|].
  destruct (manage_service_rejects_unlisted Scenario.cooperative "sshd" false
              init (or_introl Hnot)) as (msg & _ & Hcalls).
  exact Hcalls.
Defined.

(** C6 for a source start with 61 frames per second. *)
Lemma malformed_input_rejected_witness :
  malformed Scenario.cooperative (StartSourceClicked (Scenario.with_fps "61"))
  ∧ processes (exec (start_source_service Scenario.cooperative
                       (Scenario.with_fps "61")) init) = []
  ∧ calls (exec (start_source_service Scenario.cooperative
                   (Scenario.with_fps "61")) init) = [].
Proof.
  assert (Hbad : malformed Scenario.cooperative
                    (StartSourceClicked (Scenario.with_fps "61"))).
  { split; reflexivity. }
  destruct (malformed_input_rejected Scenario.cooperative
              (StartSourceClicked (Scenario.with_fps "61")) init Hbad)
    as (Hp & _ & Hc & _).
  split_and!; [exact Hbad|exact Hp|exact Hc].
Defined.

(** C2 for a running sink that exits on request. *)
Lemma stop_registered_process_witness :
  Dict.get "sink" (processes (Scenario.sink_running Scenario.cooperative))
    = Some 0
  ∧ status_label "sink"
      (exec (stop_sink_service Scenario.cooperative)
         (Scenario.sink_running Scenario.cooperative))
    = Some "Not Running"
  ∧ calls (exec (stop_sink_service Scenario.cooperative)
             (Scenario.sink_running Scenario.cooperative))
    = calls (Scenario.sink_running Scenario.cooperative)
      ++ [Terminate 0; WaitForFinished 0 3000].
Proof.
  destruct (stop_registered_process Scenario.cooperative "sink"
              (stop_sink_service Scenario.cooperative) 0
              (Scenario.sink_running Scenario.cooperative)
              eq_refl eq_refl) as (Hc & Hs & _).
  split_and!; [reflexivity|exact Hs|exact Hc].
Defined.

(** C4 for a running source that exits with code 2. *)
Lemma own_exit_reported_witness :
  heap (Scenario.both_running Scenario.cooperative) !! 1
    = Some (mkQProcess Running "source" false)
  ∧ status_label "source"
      (exec (child_exited 1 2) (Scenario.both_running Scenario.cooperative))
    = Some "Error".
Proof.
  split; [reflexivity|].
  assert (Hst : state (mkQProcess Running "source" false) ≠ NotRunning)
    by discriminate.
  destruct (own_exit_reported "source" 1 (mkQProcess Running "source" false) 2
              (Scenario.both_running Scenario.cooperative)
              (or_intror eq_refl) eq_refl eq_refl Hst) as (Hs & _).
  exact Hs.
Defined.


(** C2 as stated fails: after the sink is stopped, on the graceful path
    and on the forced one, the registry still has the entry of the sink. *)
Lemma stop_keeps_registry_entry :
  Dict.get "sink"
    (processes (exec (stop_sink_service Scenario.cooperative)
                  (Scenario.sink_running Scenario.cooperative))) = Some 0
  ∧ (Kill 0 ∉ calls (exec (stop_sink_service Scenario.cooperative)
                       (Scenario.sink_running Scenario.cooperative)))
  ∧ Dict.get "sink"
      (processes (exec (stop_sink_service Scenario.stubborn)
                    (Scenario.sink_running Scenario.stubborn))) = Some 0
  ∧ (Kill 0 ∈ calls (exec (stop_sink_service Scenario.stubborn)
                       (Scenario.sink_running Scenario.stubborn))).
Proof.
  split_and!; [reflexivity| |reflexivity|].
  - apply (bool_decide_unpack _). vm_compute. exact I.
  - apply (bool_decide_unpack _). vm_compute. exact I.
Qed.

(** C4 as stated fails: after the source exits on its own with code 2 the
    status is "Error", and the registry still has the entry of the
    source. *)
Lemma own_exit_keeps_registry_entry :
  status_label "source"
    (exec (child_exited 1 2) (Scenario.both_running Scenario.cooperative))
  = Some "Error"
  ∧ Dict.get "source"
      (processes (exec (child_exited 1 2)
                    (Scenario.both_running Scenario.cooperative))) = Some 1.
Proof. split; reflexivity. Qed.


(** C3 on the code. No child ever reports started: [run_command] logs the
    failure, removes the entry and sets "Start Failed", and the start
    handler that called it then sets the label to "Running". *)
Theorem start_failure_shown_as_running :
  starts_within Scenario.never_starts 0 5000 = false
  ∧ processes (exec (start_sink_service Scenario.never_starts
                       Scenario.defaults) init) = []
  ∧ ((true, "Failed to start process: /opt/miraclecast-universal.sh")
     ∈ console (exec (start_sink_service Scenario.never_starts
                        Scenario.defaults) init))
  ∧ sink_status_label (exec (start_sink_service Scenario.never_starts
                               Scenario.defaults) init) = "Running"
  ∧ processes (exec (start_source_service Scenario.never_starts
                       Scenario.defaults) init) = []
  ∧ source_status_label (exec (start_source_service Scenario.never_starts
                                 Scenario.defaults) init) = "Running".
Proof.
  split_and!; try reflexivity.
  apply (bool_decide_unpack _). vm_compute. exact I.
Qed.

(** * Further properties *)

(** ** How the state evolves *)

Lemma evolves_refl g : evolves g g.
Proof.
  split; try done; try (by left).
  - exists []. by rewrite app_nil_r.
  - intros h p Hp. by exists p.
Qed.

Lemma evolves_trans g1 g2 g3 : evolves g1 g2 → evolves g2 g3 → evolves g1 g3.
Proof.
  intros [Hc1 Hd1 (l1&Hl1&Ho1) He1 Hh1 Hs1 Hr1 Hn1 Hw1]
         [Hc2 Hd2 (l2&Hl2&Ho2) He2 Hh2 Hs2 Hr2 Hn2 Hw2].
  split.
  - by etrans.
  - by etrans.
  - exists (l1 ++ l2). rewrite Hl2, Hl1, <- app_assoc. split; [done|].
    rewrite forallb_app. by rewrite Ho1, Ho2.
  - lia.
  - intros h p Hp. destruct (Hh1 h p Hp) as (p1&Hp1&Hs).
    destruct (Hh2 h p1 Hp1) as (p2&Hp2&Hs'). exists p2. split; congruence.
  - destruct Hs2 as [->|]; [exact Hs1|by right].
  - destruct Hr2 as [->|]; [exact Hr1|by right].
  - destruct Hn2 as [->|]; [exact Hn1|by right].
  - destruct Hw2 as [->|]; [exact Hw1|by right].
Qed.

Lemma safe_ret {A} (a : A) : safe (ret a).
Proof. intros g. apply evolves_refl. Qed.

Lemma safe_gets {A} (f : GUI → A) : safe (gets f).
Proof. intros g. apply evolves_refl. Qed.

Lemma safe_bind {A B} (m : M A) (k : A → M B) :
  safe m → (∀ a, safe (k a)) → safe (bind m k).
Proof.
  intros Hm Hk g. unfold bind. specialize (Hm g).
  destruct (m g) as [a g1]. eapply evolves_trans; [exact Hm|apply Hk].
Qed.

Lemma safe_modify (f : GUI → GUI) : (∀ g, evolves g (f g)) → safe (modify f).
Proof. intros Hf g. apply Hf. Qed.

Lemma safe_for_each {A} (l : list A) (body : A → M unit) :
  (∀ x, safe (body x)) → safe (for_each l body).
Proof.
  intros Hb. induction l as [|x l IH]; cbn [for_each].
  - apply safe_ret.
  - apply safe_bind; [apply Hb|intros _; exact IH].
Qed.

(** The field updates of the handlers. *)
Ltac evolves_fields :=
  split; cbn;
  first [ done | by left | by apply prefix_app_r | lia
        | by (exists []; rewrite app_nil_r)
        | by (intros ? p ?; exists p) | idtac ].

Lemma safe_log message error : safe (log message error).
Proof. apply safe_modify. intros g. evolves_fields. Qed.

Lemma safe_show_error message : safe (show_error message).
Proof. apply safe_modify. intros g. evolves_fields. Qed.

Lemma safe_tick ms : safe (tick ms).
Proof. apply safe_modify. intros g. evolves_fields. Qed.

Lemma safe_record c : ok_call c = true → safe (record c).
Proof.
  intros Hc. apply safe_modify. intros g. evolves_fields.
  exists [c]. split; [done|]. cbn. by rewrite Hc.
Qed.

Lemma evolves_set_state h s g : evolves g (set_state h s g).
Proof.
  evolves_fields. intros h' p Hp. destruct (decide (h = h')) as [->|Hne].
  - rewrite list_lookup_alter_eq, Hp. by eexists.
  - rewrite list_lookup_alter_ne by done. by eexists.
Qed.

Lemma safe_set_state h s : safe (modify (set_state h s)).
Proof. apply safe_modify. intros g. apply evolves_set_state. Qed.

Lemma evolves_set_killed h g : evolves g (set_killed h g).
Proof.
  evolves_fields. intros h' p Hp. destruct (decide (h = h')) as [->|Hne].
  - rewrite list_lookup_alter_eq, Hp. by eexists.
  - rewrite list_lookup_alter_ne by done. by eexists.
Qed.

Lemma safe_set_killed h : safe (modify (set_killed h)).
Proof. apply safe_modify. intros g. apply evolves_set_killed. Qed.

Lemma safe_set_processes (f : GUI → Dict.t) :
  safe (modify (λ g, set_processes (f g) g)).
Proof. apply safe_modify. intros g. evolves_fields. Qed.

Lemma safe_set_sink_status_label text :
  text ∈ role_statuses → safe (modify (set_sink_status_label text)).
Proof. intros Ht. apply safe_modify. intros g. evolves_fields. by right. Qed.

Lemma safe_set_source_status_label text :
  text ∈ role_statuses → safe (modify (set_source_status_label text)).
Proof. intros Ht. apply safe_modify. intros g. evolves_fields. by right. Qed.

Lemma safe_set_status_label process_name text :
  text ∈ role_statuses → safe (set_status_label process_name text).
Proof.
  intros Ht. unfold set_status_label.
  destruct (String.eqb process_name "sink");
    [by apply safe_set_sink_status_label|].
  destruct (String.eqb process_name "source");
    [by apply safe_set_source_status_label|apply safe_ret].
Qed.

Lemma safe_set_nm_status text :
  text ∈ service_statuses → safe (modify (set_nm_status text)).
Proof. intros Ht. apply safe_modify. intros g. evolves_fields. by right. Qed.

Lemma safe_set_wpa_status text :
  text ∈ service_statuses → safe (modify (set_wpa_status text)).
Proof. intros Ht. apply safe_modify. intros g. evolves_fields. by right. Qed.

Lemma safe_new_QProcess process_name : safe (new_QProcess process_name).
Proof.
  intros g. unfold new_QProcess, bind, gets, modify, ret. cbn.
  evolves_fields. intros h p Hp. exists p. split; [|done].
  by apply lookup_app_l_Some.
Qed.

Ltac in_list := apply (bool_decide_unpack _); vm_compute; exact I.

Ltac safe_step tac :=
  first
    [ tac
    | apply safe_ret | apply safe_gets | apply safe_log | apply safe_show_error
    | apply safe_tick | apply safe_set_state | apply safe_set_killed
    | apply safe_set_processes
    | apply safe_new_QProcess
    | apply safe_set_status_label; in_list
    | apply safe_set_sink_status_label; in_list
    | apply safe_set_source_status_label; in_list
    | apply safe_set_nm_status; in_list
    | apply safe_set_wpa_status; in_list
    | apply safe_record; first [done | by vm_compute]
    | apply safe_bind; [|intros ?]
    | match goal with
      | |- safe (if ?b then _ else _) => destruct b
      | |- safe (match ?x with _ => _ end) => destruct x
      | |- context [if ?b then _ else _] => destruct b
      end ].

Lemma safe_process_finished process_name exit_code :
  safe (process_finished process_name exit_code).
Proof. unfold process_finished. repeat safe_step fail. Qed.

Lemma safe_emit_finished h exit_code : safe (emit_finished h exit_code).
Proof.
  unfold emit_finished. repeat safe_step ltac:(apply safe_process_finished).
Qed.

Lemma safe_terminate h : safe (terminate h).
Proof. unfold terminate. repeat safe_step fail. Qed.

Lemma safe_kill h : safe (kill h).
Proof. unfold kill. repeat safe_step fail. Qed.

Lemma safe_start h program arguments : safe (start h program arguments).
Proof. unfold start. repeat safe_step fail. Qed.

Lemma safe_waitForFinished env h msecs :
  ok_call (WaitForFinished h msecs) = true → safe (waitForFinished env h msecs).
Proof.
  intros Hok. unfold waitForFinished.
  repeat safe_step ltac:(apply safe_emit_finished).
Qed.

Lemma safe_waitForStarted env h msecs :
  ok_call (WaitForStarted h msecs) = true → safe (waitForStarted env h msecs).
Proof. intros Hok. unfold waitForStarted. repeat safe_step fail. Qed.

(** The steps of a handler, one by one. *)
Ltac safe_steps :=
  repeat safe_step
    ltac:(first [ apply safe_terminate | apply safe_kill | apply safe_start
                | apply safe_process_finished | apply safe_emit_finished
                | by apply safe_waitForFinished
                | by apply safe_waitForStarted ]).

Lemma safe_run_command env cmd process_name :
  safe (run_command env cmd process_name).
Proof. unfold run_command. destruct cmd as [cmd|]; safe_steps. Qed.

Lemma safe_stop_sink_service env : safe (stop_sink_service env).
Proof. unfold stop_sink_service. safe_steps. Qed.

Lemma safe_stop_source_service env : safe (stop_source_service env).
Proof. unfold stop_source_service. safe_steps. Qed.

Lemma safe_cleanup_on_exit env : safe (cleanup_on_exit env).
Proof.
  unfold cleanup_on_exit. apply safe_bind; [apply safe_gets|intros d].
  apply safe_for_each. intros [name process]. safe_steps.
Qed.

Lemma safe_build_universal_cmd env form mode : safe (build_universal_cmd env form mode).
Proof.
  intros g. destruct (build_universal_cmd_state env form mode g)
    as [[-> _]|[_ [msg ->]]].
  - apply evolves_refl.
  - apply safe_show_error.
Qed.

Lemma safe_start_sink_service env form : safe (start_sink_service env form).
Proof.
  unfold start_sink_service.
  destruct (negb _); [apply safe_show_error|].
  apply safe_bind; [apply safe_build_universal_cmd|intros [cmd|e]];
    [|apply safe_ret].
  apply safe_bind; [apply safe_run_command|intros _]. safe_steps.
Qed.

Lemma safe_start_source_service env form : safe (start_source_service env form).
Proof.
  unfold start_source_service.
  destruct (negb _); [apply safe_show_error|].
  apply safe_bind; [apply safe_build_universal_cmd|intros [cmd|e]];
    [|apply safe_ret].
  apply safe_bind; [apply safe_run_command|intros _]. safe_steps.
Qed.

Lemma safe_check_services_status env : safe (check_services_status env).
Proof. unfold check_services_status. safe_steps. Qed.

Lemma safe_manage_service env service_name start :
  safe (manage_service env service_name start).
Proof.
  unfold manage_service. destruct (negb (service_name_match _)); [safe_steps|].
  destruct (existsb (String.eqb service_name) allowed_services) eqn:Hex;
    cbn [negb]; [|safe_steps].
  apply safe_bind; [apply safe_gets|intros n].
  apply safe_bind.
  { apply safe_record. unfold ok_call. rewrite Hex. by destruct start. }
  intros _. repeat safe_step ltac:(apply safe_check_services_status).
Qed.

Lemma safe_child_exited h exit_code : safe (child_exited h exit_code).
Proof. unfold child_exited. safe_steps. Qed.

Lemma safe_dispatch env e : safe (dispatch env e).
Proof.
  destruct e; cbn [dispatch].
  - apply safe_start_sink_service.
  - apply safe_stop_sink_service.
  - apply safe_start_source_service.
  - apply safe_stop_source_service.
  - apply safe_manage_service.
  - apply safe_check_services_status.
  - apply safe_child_exited.
Qed.

Lemma evolves_event_loop env events g : evolves g (event_loop env events g).
Proof.
  revert g. induction events as [|e events IH]; intros g; cbn [event_loop].
  - apply evolves_refl.
  - eapply evolves_trans; [apply (safe_dispatch env e)|apply IH].
Qed.

(** ** The registry and the roles *)

Lemma elem_set_incl k v d x : x ∈ Dict.set k v d → x = (k, v) ∨ x ∈ d.
Proof.
  induction d as [|[k' v'] d IH]; simpl.
  - intros H. apply list_elem_of_singleton in H. by left.
  - destruct (String.eqb_spec k k') as [->|]; rewrite !elem_of_cons;
      (intros [H|H]; [tauto|try apply IH in H; tauto]).
Qed.

Lemma registry_ok_keeps g g' :
  processes g' = processes g → evolves g g' → registry_ok g → registry_ok g'.
Proof.
  intros Hp Hev Hok role h Hin. rewrite Hp in Hin.
  destruct (Hok role h Hin) as (Hrole & p & Hh & Hs). split; [done|].
  destruct (ev_heap _ _ Hev h p Hh) as (p' & Hh' & Hs'). exists p'.
  split; congruence.
Qed.

Lemma safe_stop_registered env role : safe (stop_registered env role).
Proof. unfold stop_registered, graceful_then_forced. safe_steps. Qed.

Lemma safe_launch env cmd role : safe (launch env cmd role).
Proof. unfold launch. safe_steps. Qed.

Lemma registry_ok_launch env cmd role g :
  role = "sink" ∨ role = "source" →
  registry_ok g → registry_ok (exec (launch env cmd role) g).
Proof.
  intros Hrole Hok.
  assert (Hfresh : ∀ st, ∀ r h,
    (r, h) ∈ Dict.set role (length (heap g)) (processes g) →
    (r = "sink" ∨ r = "source")
    ∧ ∃ p, (heap g ++ [mkQProcess st role false]) !! h = Some p ∧ finished_slot p = r).
  { intros st r h Hin. apply elem_set_incl in Hin as [[= -> ->]|Hin].
    - split; [done|]. exists (mkQProcess st role false). split; [|done].
      rewrite lookup_app_r by lia. by rewrite Nat.sub_diag.
    - destruct (Hok r h Hin) as (Hr & p & Hh & Hs). split; [done|].
      exists p. split; [|done]. by apply lookup_app_l_Some. }
  intros r h Hin. destruct cmd as [|program arguments].
  - destruct (launch_nil_spec env role g) as (_ & Hp & Hh & _).
    rewrite Hp in Hin. rewrite Hh. apply Hfresh.
    eapply elem_of_sublist; [exact Hin|apply DictFacts.pop_sublist].
  - destruct (launch_spec env program arguments role g) as (_ & Hp & Hh & _).
    rewrite Hp in Hin. rewrite Hh. apply Hfresh.
    destruct (starts_within env (length (heap g)) 5000); [done|].
    eapply elem_of_sublist; [exact Hin|apply DictFacts.pop_sublist].
Qed.

Lemma registry_ok_run_command env cmd role g :
  role = "sink" ∨ role = "source" →
  registry_ok g → registry_ok (exec (run_command env cmd role) g).
Proof.
  intros Hrole Hok. destruct cmd as [cmd|]; [|exact Hok].
  unfold exec. rewrite run_command_split. apply registry_ok_launch; [done|].
  eapply registry_ok_keeps; [|apply safe_stop_registered|done].
  apply stop_registered_keeps.
Qed.

Lemma registry_ok_start_sink_service env form g :
  registry_ok g → registry_ok (exec (start_sink_service env form) g).
Proof.
  intros Hok.
  destruct (Text.nonempty (iface_combo form)) eqn:Hi.
  - pose proof (build_universal_cmd_keeps env form "sink" g) as [Hb _].
    pose proof (safe_build_universal_cmd env form "sink" g) as Hev.
    destruct (build_universal_cmd env form "sink" g) as [[cmd|e] g1] eqn:Hbuild;
      cbn [snd] in Hb, Hev.
    + rewrite (start_sink_service_built env form g cmd g1 Hi Hbuild).
      eapply (registry_ok_keeps (exec (run_command env cmd "sink") g1));
        [reflexivity| |].
      * eapply evolves_trans;
          [apply (safe_set_sink_status_label "Running"); in_list
          |apply safe_log].
      * apply registry_ok_run_command; [by left|].
        by eapply registry_ok_keeps.
    + unfold start_sink_service, exec. rewrite Hi. cbn [negb].
      unfold bind. rewrite Hbuild. by eapply registry_ok_keeps.
  - unfold start_sink_service, exec. rewrite Hi. exact Hok.
Qed.

Lemma registry_ok_start_source_service env form g :
  registry_ok g → registry_ok (exec (start_source_service env form) g).
Proof.
  intros Hok.
  destruct (Text.nonempty (source_iface_combo form)) eqn:Hi.
  - pose proof (build_universal_cmd_keeps env form "source" g) as [Hb _].
    pose proof (safe_build_universal_cmd env form "source" g) as Hev.
    destruct (build_universal_cmd env form "source" g) as [[cmd|e] g1] eqn:Hbuild;
      cbn [snd] in Hb, Hev.
    + rewrite (start_source_service_built env form g cmd g1 Hi Hbuild).
      eapply (registry_ok_keeps (exec (run_command env cmd "source") g1));
        [reflexivity| |].
      * eapply evolves_trans;
          [apply (safe_set_source_status_label "Running"); in_list
          |apply safe_log].
      * apply registry_ok_run_command; [by right|].
        by eapply registry_ok_keeps.
    + unfold start_source_service, exec. rewrite Hi. cbn [negb].
      unfold bind. rewrite Hbuild. by eapply registry_ok_keeps.
  - unfold start_source_service, exec. rewrite Hi. exact Hok.
Qed.

Lemma registry_ok_dispatch env e g :
  registry_ok g → registry_ok (exec (dispatch env e) g).
Proof.
  intros Hok. destruct e as [form| |form| |name st| |h code]; cbn [dispatch].
  - by apply registry_ok_start_sink_service.
  - eapply registry_ok_keeps; [|apply safe_stop_sink_service|done].
    apply stop_sink_service_keeps.
  - by apply registry_ok_start_source_service.
  - eapply registry_ok_keeps; [|apply safe_stop_source_service|done].
    apply stop_source_service_keeps.
  - eapply registry_ok_keeps; [|apply safe_manage_service|done].
    apply manage_service_frame.
  - eapply registry_ok_keeps; [|apply safe_check_services_status|done].
    apply check_services_status_frame.
  - eapply registry_ok_keeps; [|apply safe_child_exited|done].
    apply child_exited_keeps.
Qed.

Lemma registry_ok_event_loop env events g :
  registry_ok g → registry_ok (event_loop env events g).
Proof.
  revert g. induction events as [|e events IH]; intros g Hok; cbn; [done|].
  apply IH, registry_ok_dispatch, Hok.
Qed.

Lemma registry_ok_init : registry_ok init.
Proof. intros role h Hin. by apply elem_of_nil in Hin. Qed.

Lemma registry_two_entries g :
  wf g → registry_ok g → (length (processes g) ≤ 2)%nat.
Proof.
  intros (Hk & _) Hok.
  assert (Hsub : Dict.keys (processes g) ⊆+ ["sink"; "source"]).
  { apply NoDup_submseteq; [done|]. intros role Hin.
    apply list_elem_of_fmap in Hin as ([r h] & -> & Hin). cbn.
    destruct (Hok r h Hin) as [[-> | ->] _].
    - apply list_elem_of_here.
    - apply list_elem_of_further, list_elem_of_here. }
  apply submseteq_length in Hsub. unfold Dict.keys in Hsub.
  rewrite length_map in Hsub. exact Hsub.
Qed.

Section Further.

Variable env : Env.

Lemma evolves_main events g :
  evolves g (exec (cleanup_on_exit env) (event_loop env events g)).
Proof.
  eapply evolves_trans; [apply evolves_event_loop|apply safe_cleanup_on_exit].
Qed.

Lemma evolves_calls_prefix g g' : evolves g g' → calls g `prefix_of` calls g'.
Proof. intros [_ _ (l & Hl & _) _ _ _ _ _ _]. by exists l. Qed.

(** X1. The handlers only add to what the window has shown and done:
    between any two points of a run, and through [cleanup_on_exit], the
    console, the error dialogs and the calls made grow at their end, and
    the time spent waiting does not decrease. *)
Theorem handlers_only_append (earlier later : list Event) :
  let g1 := event_loop env earlier init in
  let g2 := event_loop env later g1 in
  let g3 := exec (cleanup_on_exit env) g2 in
  (console g1 `prefix_of` console g2 ∧ console g2 `prefix_of` console g3)
  ∧ (dialogs g1 `prefix_of` dialogs g2 ∧ dialogs g2 `prefix_of` dialogs g3)
  ∧ (calls g1 `prefix_of` calls g2 ∧ calls g2 `prefix_of` calls g3)
  ∧ (elapsed g1 ≤ elapsed g2 ≤ elapsed g3)%N.
Proof.
  cbn zeta.
  pose proof (evolves_event_loop env later (event_loop env earlier init)) as H12.
  pose proof (safe_cleanup_on_exit env
                (event_loop env later (event_loop env earlier init))) as H23.
  unfold exec. split_and!;
    try apply ev_console; try apply ev_dialogs; try apply evolves_calls_prefix;
    try apply ev_elapsed; done.
Qed.

(** X2. At every point of a run, and after [cleanup_on_exit], the label
    of each role shows one of "Not Running", "Running", "Start Failed" and
    "Error", and the label of each service one of "Unknown", "Running" and
    "Stopped". *)
Theorem labels_show_statuses (events : list Event) :
  let g := event_loop env events init in
  let g' := main env events in
  (sink_status_label g ∈ role_statuses ∧ source_status_label g ∈ role_statuses
   ∧ nm_status g ∈ service_statuses ∧ wpa_status g ∈ service_statuses)
  ∧ (sink_status_label g' ∈ role_statuses ∧ source_status_label g' ∈ role_statuses
     ∧ nm_status g' ∈ service_statuses ∧ wpa_status g' ∈ service_statuses).
Proof.
  cbn zeta.
  assert (Hinit : ∀ g, evolves init g →
    sink_status_label g ∈ role_statuses ∧ source_status_label g ∈ role_statuses
    ∧ nm_status g ∈ service_statuses ∧ wpa_status g ∈ service_statuses).
  { intros g [_ _ _ _ _ Hs Hr Hn Hw]. split_and!.
    - destruct Hs as [-> |]; [in_list|done].
    - destruct Hr as [-> |]; [in_list|done].
    - destruct Hn as [-> |]; [in_list|done].
    - destruct Hw as [-> |]; [in_list|done]. }
  split; apply Hinit; [apply evolves_event_loop|apply evolves_main].
Qed.

(** X3. Every call a run makes is well formed: a wait for an exit lasts
    at most 3000 or 2000 ms and a wait for a start 5000 ms, a [subprocess.run]
    is [sudo systemctl start] or [stop] on a whitelisted service, and a
    [subprocess.call] is [systemctl is-active] on NetworkManager or
    wpa_supplicant. *)
Theorem calls_are_well_formed (events : list Event) :
  forallb ok_call (calls (main env events)) = true.
Proof.
  destruct (evolves_main events init) as [_ _ (l & Hl & Hok) _ _ _ _ _ _].
  unfold main. rewrite Hl. exact Hok.
Qed.

(** X4. At every point of a run the registry holds entries for "sink"
    and "source" only, at most two, each bound to an object of the store
    whose [finished] signal reports under the role of the entry. *)
Theorem registry_holds_roles (events : list Event) :
  let g := event_loop env events init in
  registry_ok g ∧ (length (processes g) ≤ 2)%nat.
Proof.
  cbn zeta.
  assert (Hok : registry_ok (event_loop env events init))
    by apply registry_ok_event_loop, registry_ok_init.
  split; [exact Hok|].
  apply registry_two_entries; [|exact Hok].
  apply event_loop_wf, init_wf.
Qed.

(** X5. [cleanup_on_exit] waits 4000 ms at most, whatever the run was. *)
Theorem teardown_waits_at_most_4000 (events : list Event) :
  (elapsed (main env events) ≤ elapsed (event_loop env events init) + 4000)%N.
Proof.
  set (g := event_loop env events init).
  assert (Hwf : wf g) by apply event_loop_wf, init_wf.
  assert (Hok : registry_ok g) by apply registry_ok_event_loop, registry_ok_init.
  pose proof (registry_two_entries g Hwf Hok) as Hlen.
  destruct Hwf as (_ & Hnd & _).
  destruct (cleanup_loop_spec env (processes g) Hnd g) as (_ & _ & He & _).
  unfold main. fold g. unfold exec in *. rewrite cleanup_on_exit_loop. lia.
Qed.

(** *** Stopping what has already stopped *)

Lemma waitForFinished_dead h msecs g :
  alive g h = false →
  waitForFinished env h msecs g
  = (false, set_calls (calls g ++ [WaitForFinished h msecs]) g).
Proof.
  intros Ha. apply alive_false_state in Ha.
  unfold waitForFinished, record, bind, gets, modify.
  change (state_of (set_calls _ g) h) with (state_of g h). by rewrite Ha.
Qed.

Lemma graceful_then_forced_dead msecs msg h g :
  alive g h = false →
  let g' := exec (graceful_then_forced env msecs (Some msg) h) g in
  console g' = console g ++ [(true, msg)]
  ∧ calls g' = calls g ++ [Terminate h; WaitForFinished h msecs; Kill h]
  ∧ elapsed g' = elapsed g
  ∧ dialogs g' = dialogs g
  ∧ sink_status_label g' = sink_status_label g
  ∧ source_status_label g' = source_status_label g.
Proof.
  intros Ha. cbn zeta.
  unfold graceful_then_forced, terminate, record, exec, bind, modify.
  rewrite waitForFinished_dead by exact Ha.
  cbn. rewrite <- !app_assoc. done.
Qed.

(** X6. Stopping a role whose registered process has already exited
    waits for nothing, and still logs the error "Process didn't terminate
    gracefully, forcing..." and calls [kill] before it reports "Not
    Running". *)
Theorem stop_of_exited_process (role : string) (stop : M unit) (h : nat) (g : GUI) :
  stop_handler env role = Some stop →
  Dict.get role (processes g) = Some h →
  alive g h = false →
  let g' := exec stop g in
  console g'
  = console g
    ++ [(true, "Process didn't terminate gracefully, forcing...");
        (false, ("Stopped " ++ role ++ " service")%string)]
  ∧ calls g' = calls g ++ [Terminate h; WaitForFinished h 3000; Kill h]
  ∧ elapsed g' = elapsed g
  ∧ status_label role g' = Some "Not Running".
Proof.
  intros Hstop Hget Ha. cbn zeta.
  destruct (graceful_then_forced_dead 3000
    "Process didn't terminate gracefully, forcing..." h g Ha)
    as (Hc & Hcalls & He & _).
  destruct (stop_handler_cases env role stop Hstop) as [[-> ->]|[-> ->]].
  - rewrite (stop_sink_service_registered env h g Hget).
    cbn. rewrite Hc, Hcalls, He, <- app_assoc. done.
  - rewrite (stop_source_service_registered env h g Hget).
    cbn. rewrite Hc, Hcalls, He, <- app_assoc. done.
Qed.

(** *** A forced stop, and the exit that Qt reports later *)

Lemma stop_handler_forced role stop h g :
  stop_handler env role = Some stop →
  Dict.get role (processes g) = Some h →
  exits_within env h 3000 g = false →
  let g1 := exec stop g in
  heap g1 = heap (set_killed h g)
  ∧ status_label role g1 = Some "Not Running".
Proof.
  intros Hstop Hget Hex. cbn zeta.
  destruct (graceful_then_forced_spec env 3000
    (Some "Process didn't terminate gracefully, forcing...") h g)
    as (_ & Hh & _).
  rewrite Hex in Hh.
  destruct (stop_handler_cases env role stop Hstop) as [[-> ->]|[-> ->]].
  - by rewrite (stop_sink_service_registered env h g Hget).
  - by rewrite (stop_source_service_registered env h g Hget).
Qed.

(** X7. When a stop handler has to kill the child, it sets the label to
    "Not Running" while the process keeps the state it had, with the kill
    signal on its way; when Qt then reports the exit of the child with an
    exit code that is not zero, the exit is logged as an error and the
    label of the role turns to "Error". *)
Theorem killed_child_reported_as_error
    (role : string) (stop : M unit) (h : nat) (exit_code : Z) (g : GUI) :
  stop_handler env role = Some stop →
  registry_ok g →
  Dict.get role (processes g) = Some h →
  alive g h = true →
  exits_within env h 3000 g = false →
  exit_code ≠ 0%Z →
  let g1 := exec stop g in
  let g2 := exec (child_exited h exit_code) g1 in
  status_label role g1 = Some "Not Running"
  ∧ state_of g1 h = state_of g h
  ∧ killed_of g1 h = true
  ∧ status_label role g2 = Some "Error"
  ∧ state_of g2 h = NotRunning
  ∧ console g2
    = console g1
      ++ [(true, ("Process '" ++ role ++ "' exited with code "
                  ++ pretty exit_code)%string)].
Proof.
  intros Hstop Hok Hget Ha Hex Hcode. cbn zeta.
  destruct (stop_handler_forced role stop h g Hstop Hget Hex) as [Hh Hlabel].
  set (g1 := exec stop g) in *.
  assert (Hst : state_of g1 h = state_of g h).
  { rewrite (state_of_heap _ _ _ Hh). apply state_of_set_killed. }
  assert (Hk : killed_of g1 h = true).
  { rewrite (killed_of_heap _ _ _ Hh), killed_of_set_killed. by rewrite Ha. }
  destruct (Hok role h (DictFacts.get_Some_elem _ _ _ Hget))
    as (Hrole & p & Hp & Hslot).
  assert (Hp1 : ∃ p1, heap g1 !! h = Some p1 ∧ finished_slot p1 = role
                      ∧ state p1 ≠ NotRunning).
  { rewrite Hh. unfold set_killed. cbn [heap set_heap].
    rewrite list_lookup_alter_eq, Hp. eexists. split; [reflexivity|].
    split; [exact Hslot|]. cbn.
    unfold alive, state_of in Ha. rewrite Hp in Ha.
    by apply bool_decide_eq_true in Ha. }
  destruct Hp1 as (p1 & Hp1 & Hslot1 & Hstate1).
  rewrite (child_exited_running h p1 exit_code g1 Hp1 Hstate1), Hslot1.
  assert (Hzero : (exit_code =? 0)%Z = false) by by apply Z.eqb_neq.
  assert (Hdead : ∀ x, heap x = heap (set_state h NotRunning g1) →
                       state_of x h = NotRunning).
  { intros x Hx. rewrite (state_of_heap _ _ _ Hx). apply state_of_stopped. }
  unfold process_finished, exec, bind, log, modify. rewrite Hzero. cbn [negb].
  split_and!; [exact Hlabel|exact Hst|exact Hk|..];
    destruct Hrole as [-> | ->]; cbn; try done; by apply Hdead.
Qed.

(** *** An empty command *)

(** X8. An empty command starts nothing: after the stop of the registered
    process, if any, [run_command] makes no call, logs the exception of
    [cmd[0]], shows no dialog, leaves the role without an entry and does
    not set its label. *)
Theorem run_command_empty_launches_nothing (role : string) (g : GUI) :
  wf g →
  let mid := exec (stop_registered env role) g in
  let g' := exec (run_command env (Some []) role) g in
  calls g' = calls mid
  ∧ Dict.get role (processes g') = None
  ∧ console g'
    = console mid
      ++ [(false, "Running: ");
          (true, "Exception starting process: list index out of range")]
  ∧ dialogs g' = dialogs g
  ∧ status_label role g' = status_label role mid.
Proof.
  intros Hwf. cbn zeta.
  assert (Hg' : exec (run_command env (Some []) role) g
                = exec (launch env [] role) (exec (stop_registered env role) g)).
  { unfold exec at 1. by rewrite run_command_split. }
  rewrite Hg'. set (mid := exec (stop_registered env role) g).
  assert (Hwfmid : wf mid).
  { eapply keeps_registry_wf; [apply stop_registered_keeps|done]. }
  split_and!.
  - by rewrite launch_calls, app_nil_r.
  - rewrite launch_registry by apply Hwfmid. done.
  - cbn. by rewrite <- app_assoc.
  - cbn. pose proof (stop_registered_eq env role g) as Hmid. fold mid in Hmid.
    rewrite Hmid. destruct (Dict.get role (processes g)); [|done].
    by destruct (graceful_then_forced_spec env 3000
      (Some "Process didn't terminate gracefully, forcing kill") n g)
      as (_ & _ & _ & _ & ->).
  - unfold status_label. cbn. done.
Qed.

End Further.

Section Roles.

Variable env : Env.

(** *** One role does not disturb the other *)

Lemma status_label_set_other role role' text g :
  role' ≠ role →
  status_label role' (exec (set_status_label role text) g) = status_label role' g.
Proof.
  intros Hne. unfold set_status_label, status_label, exec.
  destruct (String.eqb_spec role "sink") as [->|];
    [|destruct (String.eqb_spec role "source") as [->|]]; cbn;
    destruct (String.eqb_spec role' "sink") as [->|]; try done;
    destruct (String.eqb_spec role' "source") as [->|]; done.
Qed.

Lemma process_finished_other role role' exit_code g :
  role' ≠ role →
  status_label role' (exec (process_finished role exit_code) g)
  = status_label role' g.
Proof.
  intros Hne. unfold process_finished, exec, bind, log, modify.
  destruct (negb (exit_code =? 0)%Z);
    match goal with |- context [set_status_label ?r ?t ?x] =>
      pose proof (status_label_set_other r role' t x Hne) as H end;
    unfold exec in H; by rewrite H.
Qed.

Lemma waitForFinished_other h msecs role' g :
  (∀ p, heap g !! h = Some p → finished_slot p ≠ role') →
  status_label role' (waitForFinished env h msecs g).2 = status_label role' g.
Proof.
  intros Hslot.
  unfold waitForFinished, exit_of, killed_of, record, tick, bind, gets,
    modify, ret, state_of.
  cbn -[emit_finished status_label].
  destruct (heap g !! h) as [[st slot k]|] eqn:Hh;
    cbn -[emit_finished status_label]; [|done].
  destruct st; cbn -[emit_finished status_label]; [done|..];
    rewrite ?Hh; cbn -[emit_finished status_label].
  all: destruct (if k then Some (kill_exit env h) else term_delay env h)
         as [[d code]|];
    cbn -[emit_finished status_label]; [|done];
    destruct (d <=? msecs)%N; cbn -[emit_finished status_label]; [|done].
  all: unfold emit_finished, bind, gets;
    cbn -[process_finished status_label];
    rewrite list_lookup_alter_eq, Hh; cbn -[process_finished status_label];
    match goal with |- context [process_finished ?r ?c ?x] =>
      assert (Hne : role' ≠ r) by (intros ->; by eapply Hslot);
      pose proof (process_finished_other r role' c x Hne) as H;
      unfold exec in H; destruct (process_finished r c x) end;
    exact H.
Qed.

Lemma graceful_then_forced_other msecs msg h role' g :
  (∀ p, heap g !! h = Some p → finished_slot p ≠ role') →
  status_label role' (exec (graceful_then_forced env msecs msg h) g)
  = status_label role' g.
Proof.
  intros Hslot. unfold graceful_then_forced, terminate, record, exec, bind, modify.
  pose proof (waitForFinished_other h msecs role'
                (set_calls (calls g ++ [Terminate h]) g) Hslot) as Hw.
  destruct (waitForFinished env h msecs _) as [finished g2]. cbn [snd] in Hw.
  destruct finished; cbn [negb]; [exact Hw|].
  unfold kill, record, log, bind, modify. destruct msg; exact Hw.
Qed.

Lemma registry_ok_slot g role h p :
  registry_ok g → Dict.get role (processes g) = Some h →
  heap g !! h = Some p → finished_slot p = role.
Proof.
  intros Hok Hget Hh. apply DictFacts.get_Some_elem in Hget.
  destruct (Hok role h Hget) as (_ & p' & Hh' & Hs). congruence.
Qed.

Lemma stop_registered_other role role' g :
  role' ≠ role → registry_ok g →
  let g' := exec (stop_registered env role) g in
  processes g' = processes g
  ∧ status_label role' g' = status_label role' g
  ∧ (∀ h', Dict.get role (processes g) ≠ Some h' → state_of g' h' = state_of g h')
  ∧ length (heap g') = length (heap g).
Proof.
  intros Hne Hok. cbn zeta. rewrite stop_registered_eq.
  destruct (Dict.get role (processes g)) as [h|] eqn:Hget; [|done].
  destruct (graceful_then_forced_spec env 3000
    (Some "Process didn't terminate gracefully, forcing kill") h g)
    as (Hp & Hh & _).
  split_and!.
  - exact Hp.
  - apply graceful_then_forced_other. intros p Hp' <-.
    apply Hne. by eapply registry_ok_slot.
  - intros h' Hh'. apply state_of_lookup, graceful_then_forced_others.
    intros ->. by apply Hh'.
  - apply (graceful_then_forced_keeps env 3000 _ h g).
Qed.

(** X9. Stopping one role leaves the other alone: the registry is
    unchanged, the label of any other role is unchanged, and so is the
    state of every process but the one registered for the stopped role. *)
Theorem stop_leaves_other_role
    (role role' : string) (stop : M unit) (g : GUI) :
  stop_handler env role = Some stop →
  role' ≠ role →
  registry_ok g →
  let g' := exec stop g in
  processes g' = processes g
  ∧ status_label role' g' = status_label role' g
  ∧ ∀ h', Dict.get role (processes g) ≠ Some h' → state_of g' h' = state_of g h'.
Proof.
  intros Hstop Hne Hok. cbn zeta.
  assert (Hgtf : ∀ msg h, Dict.get role (processes g) = Some h →
    let g1 := exec (graceful_then_forced env 3000 msg h) g in
    processes g1 = processes g
    ∧ status_label role' g1 = status_label role' g
    ∧ ∀ h', Dict.get role (processes g) ≠ Some h' → state_of g1 h' = state_of g h').
  { intros msg h Hget. cbn zeta.
    destruct (graceful_then_forced_spec env 3000 msg h g) as (Hp & Hh & _).
    split_and!; [exact Hp| |].
    - apply graceful_then_forced_other. intros p Hp' <-.
      apply Hne. by eapply registry_ok_slot.
    - intros h' Hh'. apply state_of_lookup, graceful_then_forced_others.
      intros ->. by apply Hh'. }
  destruct (stop_handler_cases env role stop Hstop) as [[-> ->]|[-> ->]].
  - destruct (Dict.get "sink" (processes g)) as [h|] eqn:Hget.
    + rewrite (stop_sink_service_registered env h g Hget).
      destruct (Hgtf (Some "Process didn't terminate gracefully, forcing...") h
                  eq_refl) as (Hp & Hs & Hst).
      split_and!; [exact Hp| |exact Hst].
      rewrite <- Hs. unfold status_label. cbn.
      destruct (String.eqb_spec role' "sink"); done.
    + unfold exec. by rewrite stop_sink_service_unregistered.
  - destruct (Dict.get "source" (processes g)) as [h|] eqn:Hget.
    + rewrite (stop_source_service_registered env h g Hget).
      destruct (Hgtf (Some "Process didn't terminate gracefully, forcing...") h
                  eq_refl) as (Hp & Hs & Hst).
      split_and!; [exact Hp| |exact Hst].
      rewrite <- Hs. unfold status_label. cbn.
      destruct (String.eqb_spec role' "sink"); [done|].
      destruct (String.eqb_spec role' "source"); done.
    + unfold exec. by rewrite stop_source_service_unregistered.
Qed.

End Roles.

Section Starts.

Variable env : Env.

Lemma launch_other cmd role role' g :
  role' ≠ role →
  let g' := exec (launch env cmd role) g in
  Dict.get role' (processes g') = Dict.get role' (processes g)
  ∧ status_label role' g' = status_label role' g
  ∧ ∀ h', h' < length (heap g) → state_of g' h' = state_of g h'.
Proof.
  intros Hne. cbn zeta. split_and!.
  - assert (Hset : ∀ v, Dict.get role' (Dict.set role v (processes g))
                        = Dict.get role' (processes g)).
    { intros v. apply DictFacts.get_set_ne. congruence. }
    assert (Hpop : ∀ d, Dict.get role' (Dict.pop role d) = Dict.get role' d).
    { intros d. apply DictFacts.get_pop_ne. congruence. }
    destruct cmd as [|program arguments].
    + destruct (launch_nil_spec env role g) as (_ & -> & _).
      by rewrite Hpop, Hset.
    + destruct (launch_spec env program arguments role g) as (_ & -> & _).
      destruct (starts_within env (length (heap g)) 5000);
        by rewrite ?Hpop, Hset.
  - destruct cmd as [|program arguments]; [done|].
    unfold launch, new_QProcess, start, waitForStarted, record, tick, exec,
      bind, gets, modify, ret, log.
    cbn -[Text.join set_status_label status_label].
    destruct (start_delay env (length (heap g))) as [d|];
      cbn -[Text.join set_status_label status_label];
      [destruct (d <=? 5000)%N;
       cbn -[Text.join set_status_label status_label]; [done|]|].
    all: match goal with |- context [set_status_label ?r ?t ?x] =>
           pose proof (status_label_set_other r role' t x Hne) as H end;
         unfold exec in H; by rewrite H.
  - intros h' Hh'. destruct (launch_heap env cmd role g) as [p Hp].
    unfold state_of. by rewrite Hp, lookup_app_l by lia.
Qed.

Lemma run_command_other cmd role role' g :
  role' ≠ role → registry_ok g →
  let g' := exec (run_command env cmd role) g in
  Dict.get role' (processes g') = Dict.get role' (processes g)
  ∧ status_label role' g' = status_label role' g
  ∧ ∀ h', h' < length (heap g) → Dict.get role (processes g) ≠ Some h' →
          state_of g' h' = state_of g h'.
Proof.
  intros Hne Hok. cbn zeta. destruct cmd as [cmd|]; [|done].
  assert (Hg' : exec (run_command env (Some cmd) role) g
                = exec (launch env cmd role) (exec (stop_registered env role) g)).
  { unfold exec at 1. by rewrite run_command_split. }
  rewrite Hg'.
  destruct (stop_registered_other env role role' g Hne Hok)
    as (Hp & Hs & Hst & Hlen).
  destruct (launch_other cmd role role' (exec (stop_registered env role) g) Hne)
    as (Hp' & Hs' & Hst').
  rewrite Hp', Hs', Hp, Hs. split_and!; try done.
  intros h' Hh' Hget. rewrite Hst' by lia. by apply Hst.
Qed.

(** X10. Starting one role leaves the other alone: the registry entry and
    the label of any other role are unchanged, and so is the state of
    every existing process but the one registered for the started role. *)
Theorem start_leaves_other_role
    (form : Form) (role role' : string) (start : M unit) (g : GUI) :
  start_handler env form role = Some start →
  role' ≠ role →
  registry_ok g →
  let g' := exec start g in
  Dict.get role' (processes g') = Dict.get role' (processes g)
  ∧ status_label role' g' = status_label role' g
  ∧ ∀ h', h' < length (heap g) → Dict.get role (processes g) ≠ Some h' →
          state_of g' h' = state_of g h'.
Proof.
  intros Hstart Hne Hok. cbn zeta.
  assert (Hbuild : ∀ mode,
    let g1 := (build_universal_cmd env form mode g).2 in
    registry_ok g1 ∧ processes g1 = processes g ∧ heap g1 = heap g
    ∧ status_label role' g1 = status_label role' g).
  { intros mode. cbn zeta.
    destruct (build_universal_cmd_state env form mode g)
      as [[-> _]|[_ [msg ->]]]; done. }
  assert (Hrun : ∀ cmd g1,
    registry_ok g1 ∧ processes g1 = processes g ∧ heap g1 = heap g
    ∧ status_label role' g1 = status_label role' g →
    let g2 := exec (run_command env cmd role) g1 in
    Dict.get role' (processes g2) = Dict.get role' (processes g)
    ∧ status_label role' g2 = status_label role' g
    ∧ ∀ h', h' < length (heap g) → Dict.get role (processes g) ≠ Some h' →
            state_of g2 h' = state_of g h').
  { intros cmd g1 (Hok1 & Hp1 & Hh1 & Hs1). cbn zeta.
    destruct (run_command_other cmd role role' g1 Hne Hok1) as (Hp & Hs & Hst).
    rewrite Hp, Hs, Hp1, Hs1. split_and!; try done.
    intros h' Hh' Hget. rewrite Hst; [|by rewrite Hh1|by rewrite Hp1].
    by apply state_of_heap. }
  unfold start_handler in Hstart.
  destruct (String.eqb_spec role "sink") as [->|Hsink].
  - injection Hstart as <-.
    destruct (Text.nonempty (iface_combo form)) eqn:Hi.
    + pose proof (Hbuild "sink") as Hb. cbn zeta in Hb.
      destruct (build_universal_cmd env form "sink" g) as [[cmd|e] g1] eqn:Hbuilt;
        cbn [snd] in Hb.
      * rewrite (start_sink_service_built env form g cmd g1 Hi Hbuilt).
        destruct (Hrun cmd g1 Hb) as (Hp & Hs & Hst).
        split_and!; [exact Hp| |exact Hst].
        rewrite <- Hs. unfold status_label. cbn.
        destruct (String.eqb_spec role' "sink"); done.
      * unfold start_sink_service, exec. rewrite Hi. cbn [negb].
        unfold bind. rewrite Hbuilt. cbn [snd ret].
        destruct Hb as (_ & Hp & Hh & Hs). rewrite Hp, Hs.
        split_and!; try done; intros h' _ _; by apply state_of_heap.
    + unfold start_sink_service, exec. by rewrite Hi.
  - destruct (String.eqb_spec role "source") as [->|]; [|done].
    injection Hstart as <-.
    destruct (Text.nonempty (source_iface_combo form)) eqn:Hi.
    + pose proof (Hbuild "source") as Hb. cbn zeta in Hb.
      destruct (build_universal_cmd env form "source" g) as [[cmd|e] g1] eqn:Hbuilt;
        cbn [snd] in Hb.
      * rewrite (start_source_service_built env form g cmd g1 Hi Hbuilt).
        destruct (Hrun cmd g1 Hb) as (Hp & Hs & Hst).
        split_and!; [exact Hp| |exact Hst].
        rewrite <- Hs. unfold status_label. cbn.
        destruct (String.eqb_spec role' "sink"); [done|].
        destruct (String.eqb_spec role' "source"); done.
      * unfold start_source_service, exec. rewrite Hi. cbn [negb].
        unfold bind. rewrite Hbuilt. cbn [snd ret].
        destruct Hb as (_ & Hp & Hh & Hs). rewrite Hp, Hs.
        split_and!; try done; intros h' _ _; by apply state_of_heap.
    + unfold start_source_service, exec. by rewrite Hi.
Qed.

End Starts.

Section Launches.

Variable env : Env.

(** *** A start that succeeds *)

Lemma starts_within_state h msecs :
  starts_within env h msecs = true → state_after_start env h msecs = Running.
Proof.
  unfold starts_within, state_after_start.
  destruct (start_delay env h) as [d|]; [|done]. by intros ->.
Qed.

Lemma stop_registered_dialogs role g :
  dialogs (exec (stop_registered env role) g) = dialogs g.
Proof.
  rewrite stop_registered_eq. destruct (Dict.get role (processes g)); [|done].
  by destruct (graceful_then_forced_spec env 3000
    (Some "Process didn't terminate gracefully, forcing kill") n g)
    as (_ & _ & _ & _ & ->).
Qed.

Lemma run_command_launches program arguments role g :
  let mid := exec (stop_registered env role) g in
  let new := length (heap g) in
  let g' := exec (run_command env (Some (program :: arguments)) role) g in
  calls g' = calls mid ++ [Start new program arguments; WaitForStarted new 5000]
  ∧ dialogs g' = dialogs g
  ∧ (starts_within env new 5000 = true →
     Dict.get role (processes g') = Some new ∧ state_of g' new = Running).
Proof.
  cbn zeta.
  assert (Hg' : exec (run_command env (Some (program :: arguments)) role) g
                = exec (launch env (program :: arguments) role)
                    (exec (stop_registered env role) g)).
  { unfold exec at 1. by rewrite run_command_split. }
  rewrite Hg'. set (mid := exec (stop_registered env role) g).
  destruct (stop_registered_keeps env role g) as [_ Hlen]. fold mid in Hlen.
  destruct (launch_spec env program arguments role mid) as (Hc & Hp & Hh & Hd & _).
  rewrite Hlen in Hc, Hp, Hh. split_and!.
  - exact Hc.
  - rewrite Hd. apply stop_registered_dialogs.
  - intros Hst. rewrite Hst in Hp. rewrite Hp. split.
    + apply DictFacts.get_set_eq.
    + unfold state_of. rewrite Hh, lookup_app_r by lia.
      rewrite Hlen, Nat.sub_diag. cbn. by apply starts_within_state.
Qed.

(** X11. A start with an interface selected, a command built and a child
    that reports started within 5000 ms binds the role to the new process,
    which is running, sets the label to "Running", shows no dialog, and
    calls [start] and [waitForStarted] on the new process right after the
    stop of the one registered before. *)
Theorem start_reports_running
    (form : Form) (role iface : string) (start : M unit)
    (program : string) (arguments : list string) (g : GUI) :
  start_handler env form role = Some start →
  selected_interface form role = Some iface →
  Text.nonempty iface = true →
  (build_universal_cmd env form role g).1 = Returned (Some (program :: arguments)) →
  starts_within env (length (heap g)) 5000 = true →
  let mid := exec (stop_registered env role) g in
  let new := length (heap g) in
  let g' := exec start g in
  Dict.get role (processes g') = Some new
  ∧ state_of g' new = Running
  ∧ status_label role g' = Some "Running"
  ∧ calls g' = calls mid ++ [Start new program arguments; WaitForStarted new 5000]
  ∧ dialogs g' = dialogs g.
Proof.
  intros Hstart Hsel Hi Hbuild Hst. cbn zeta.
  assert (Hbuilt : build_universal_cmd env form role g
                   = (Returned (Some (program :: arguments)), g)).
  { destruct (build_universal_cmd_state env form role g) as [[Hg _]|[Hnone _]].
    - destruct (build_universal_cmd env form role g) as [r g1].
      cbn [fst snd] in *. congruence.
    - congruence. }
  destruct (run_command_launches program arguments role g) as (Hc & Hd & Hrun).
  destruct (Hrun Hst) as [Hget Hstate].
  unfold start_handler, selected_interface in *.
  destruct (String.eqb_spec role "sink") as [->|].
  - injection Hstart as <-. injection Hsel as <-.
    rewrite (start_sink_service_built env form g _ g Hi Hbuilt).
    split_and!; done.
  - destruct (String.eqb_spec role "source") as [->|]; [|done].
    injection Hstart as <-. injection Hsel as <-.
    rewrite (start_source_service_built env form g _ g Hi Hbuilt).
    split_and!; done.
Qed.

(** X12. With an interface selected, starting the sink always launches
    the universal script with [-i <interface> -m sink] and the flags of
    the ticked options, and shows no dialog: the sink command is never
    rejected. *)
Theorem sink_start_always_launches (form : Form) (g : GUI) :
  Text.nonempty (iface_combo form) = true →
  let mid := exec (stop_registered env "sink") g in
  let new := length (heap g) in
  let g' := exec (start_sink_service env form) g in
  calls g'
  = calls mid
    ++ [Start new (universal_script form)
          (["-i"; iface_combo form; "-m"; "sink"] ++ sink_flags form);
        WaitForStarted new 5000]
  ∧ dialogs g' = dialogs g.
Proof.
  intros Hi. cbn zeta.
  assert (Hbuilt : build_universal_cmd env form "sink" g
                   = (Returned (Some (universal_script form
                        :: ["-i"; iface_combo form; "-m"; "sink"]
                        ++ sink_flags form)), g)).
  { unfold build_universal_cmd, sink_flags, ret. cbn [String.eqb Ascii.eqb Bool.eqb].
    destruct (uibc_check form), (green_screen_check form),
      (hw_fixes_check form), (session_check form); reflexivity. }
  rewrite (start_sink_service_built env form g _ g Hi Hbuilt).
  destruct (run_command_launches (universal_script form)
              (["-i"; iface_combo form; "-m"; "sink"] ++ sink_flags form)
              "sink" g) as (Hc & Hd & _).
  split; [exact Hc|exact Hd].
Qed.

End Launches.

(** *** Whitespace around the numeric fields *)

Lemma lstrip_no_leading_space s : no_leading_space (Text.lstrip s).
Proof.
  induction s as [|c s IH]; cbn; [done|].
  destruct (Text.isspace c) eqn:Hc; [exact IH|]. cbn. exact Hc.
Qed.

Lemma lstrip_fixed s : no_leading_space s → Text.lstrip s = s.
Proof. destruct s as [|c s]; cbn; [done|]. by intros ->. Qed.

Lemma rstrip_no_leading_space s :
  no_leading_space s → no_leading_space (Text.rstrip s).
Proof.
  destruct s as [|c s]; cbn; [done|]. intros Hc.
  destruct (Text.rstrip s); cbn; by rewrite ?Hc.
Qed.

Lemma rstrip_idempotent s : Text.rstrip (Text.rstrip s) = Text.rstrip s.
Proof.
  induction s as [|c s IH]; [done|].
  cbn [Text.rstrip]. destruct (Text.rstrip s) as [|c' r] eqn:Hr.
  - destruct (Text.isspace c) eqn:Hc; cbn; [done|]. by rewrite Hc.
  - change (Text.rstrip (String c (String c' r)))
      with (match Text.rstrip (String c' r) with
            | EmptyString =>
                if Text.isspace c then EmptyString else String c EmptyString
            | String c0 r0 => String c (String c0 r0)
            end).
    by rewrite IH.
Qed.

Lemma strip_idempotent s : Text.strip (Text.strip s) = Text.strip s.
Proof.
  unfold Text.strip.
  rewrite (lstrip_fixed (Text.rstrip (Text.lstrip s))).
  - apply rstrip_idempotent.
  - apply rstrip_no_leading_space, lstrip_no_leading_space.
Qed.

(** X13. Whitespace around the width, height, FPS and bitrate fields
    does not count: the build gives the same result and the same dialogs
    as on the stripped fields. *)
Theorem build_ignores_surrounding_whitespace
    (env : Env) (form : Form) (mode : string) (g : GUI) :
  build_universal_cmd env (strip_numeric_fields form) mode g
  = build_universal_cmd env form mode g.
Proof.
  unfold build_universal_cmd, strip_numeric_fields.
  cbn [universal_script iface_combo uibc_check green_screen_check
       hw_fixes_check session_check source_iface_combo source_res_width
       source_res_height source_fps source_bitrate source_hw_fixes_check
       source_session_check].
  by rewrite !strip_idempotent.
Qed.

(** *** Digits that [int] does not read *)

(** X18. When the first numeric field that is not in order is all digits
    for [isdigit] and [int] does not read it, the source start ends in the
    [ValueError] of the build before anything is done: the handler shows no
    dialog, logs nothing, creates and starts no process, and leaves the
    labels and the registry as they were. *)
Theorem unreadable_option_raises (env : Env) (form : Form) (g : GUI) :
  Text.nonempty (source_iface_combo form) = true →
  SourceOptions.raises env form = true →
  build_universal_cmd env form "source" g = (Raised "ValueError", g)
  ∧ start_source_service env form g = (tt, g).
Proof.
  intros Hi Hraises.
  destruct (build_source_refines env form g) as (Hb & Hsame & _).
  rewrite (raises_spec env form Hraises) in Hb.
  assert (Hrej : SourceOptions.rejected env form = false).
  { unfold SourceOptions.rejected, SourceOptions.raises in *.
    by destruct (SourceOptions.first_fault env form) as [[]|]. }
  specialize (Hsame Hrej).
  assert (Hbuilt : build_universal_cmd env form "source" g
                   = (Raised "ValueError", g)).
  { destruct (build_universal_cmd env form "source" g) as [r g1].
    cbn [fst snd] in Hb, Hsame. by rewrite Hb, Hsame. }
  split; [exact Hbuilt|].
  unfold start_source_service. rewrite Hi. cbn [negb].
  unfold bind. by rewrite Hbuilt.
Qed.

Section Services.

Variable env : Env.

(** X14. [check_services_status] sets the two service labels together or
    not at all: when either query raises, both labels stay as they were and
    one error line is logged; when both return, each label reads "Running"
    for return code 0 and "Stopped" otherwise, and nothing is logged. *)
Theorem service_labels_change_together (g : GUI) :
  let n := length (calls g) in
  let g' := exec (check_services_status env) g in
  (∃ e, nm_status g' = nm_status g ∧ wpa_status g' = wpa_status g
        ∧ console g' = console g ++ [(true, ("Service status check failed: " ++ e)%string)]
        ∧ (call_result env n (is_active_argv "NetworkManager") = inl e
           ∨ call_result env (S n) (is_active_argv "wpa_supplicant") = inl e))
  ∨ (∃ rc_nm rc_wpa,
        call_result env n (is_active_argv "NetworkManager") = inr rc_nm
        ∧ call_result env (S n) (is_active_argv "wpa_supplicant") = inr rc_wpa
        ∧ nm_status g' = service_status_text rc_nm
        ∧ wpa_status g' = service_status_text rc_wpa
        ∧ console g' = console g).
Proof.
  cbn zeta.
  unfold check_services_status, is_active_argv, service_status_text, exec,
    bind, gets, record, modify, log.
  cbn [fst snd calls set_calls].
  destruct (call_result env (length (calls g)) _) as [e|rc_nm] eqn:Hnm.
  - left. exists e. cbn. split_and!; try done. by left.
  - cbn [calls set_calls]. rewrite length_app, Nat.add_1_r.
    destruct (call_result env (S (length (calls g))) _) as [e|rc_wpa] eqn:Hwpa.
    + left. exists e. cbn. split_and!; try done. by right.
    + right. exists rc_nm, rc_wpa. cbn. done.
Qed.

(** X15. For a whitelisted service whose [systemctl] call returns,
    [manage_service] makes that one call; on return code 0 it logs the
    success and refreshes the service labels; otherwise it shows and logs
    the stripped standard error, or "Failed to <action> <name>" when it is
    blank, and leaves the service labels alone. *)
Theorem manage_service_outcome
    (service_name : string) (start : bool) (returncode : Z) (stderr : string)
    (g : GUI) :
  service_name ∈ allowed_services →
  run_result env (length (calls g))
    ["sudo"; "systemctl"; service_action start; service_name]
  = inr (returncode, stderr) →
  let called :=
    set_calls (calls g ++ [SubprocessRun ["sudo"; "systemctl";
                                          service_action start; service_name]]) g in
  exec (manage_service env service_name start) g
  = if (returncode =? 0)%Z then
      exec (check_services_status env)
        (set_console
           (console g ++ [(false, (service_name ++ " " ++ service_action start
                                   ++ "ed successfully")%string)]) called)
    else
      set_console
        (console g ++ [(true, service_failure_text service_name start stderr)])
        (set_dialogs
           (dialogs g ++ [service_failure_text service_name start stderr])
           called).
Proof.
  intros Hin Hrun. cbn zeta.
  destruct (allowed_services_match service_name Hin) as [Hm Hex].
  unfold manage_service, exec. rewrite Hm, Hex. cbn [negb].
  unfold service_action, service_failure_text in *.
  unfold bind at 1. unfold gets. unfold bind at 1. unfold record, modify.
  rewrite Hrun. destruct (returncode =? 0)%Z.
  - unfold bind, log, modify. reflexivity.
  - unfold bind, show_error, log, modify. reflexivity.
Qed.

End Services.

(** X16. [manage_service] calls [sudo systemctl] exactly for the three
    whitelisted names: the format check never turns a whitelisted name
    down, and no other name reaches the system. *)
Theorem manage_service_runs_iff_whitelisted
    (env : Env) (service_name : string) (start : bool) (g : GUI) :
  (∃ rest,
     calls (exec (manage_service env service_name start) g)
     = calls g
       ++ SubprocessRun ["sudo"; "systemctl"; service_action start; service_name]
          :: rest)
  ↔ service_name ∈ allowed_services.
Proof.
  split.
  - intros [rest Hcalls].
    destruct (decide (service_name ∈ allowed_services)) as [|Hnot]; [done|].
    destruct (manage_service_invalid env service_name start g (or_introl Hnot))
      as [msg Hmsg].
    rewrite Hmsg in Hcalls. cbn in Hcalls.
    apply (f_equal length) in Hcalls. rewrite length_app in Hcalls.
    cbn in Hcalls. lia.
  - intros Hin. apply (manage_service_allowed env service_name start g Hin).
Qed.

(** *** How long a handler blocks *)

Section Blocking.

Variable env : Env.

Lemma launch_elapsed cmd role g :
  (elapsed g ≤ elapsed (exec (launch env cmd role) g) ≤ elapsed g + 5000)%N.
Proof.
  destruct cmd as [|program arguments]; [cbn; lia|].
  unfold launch, new_QProcess, start, waitForStarted, record, tick, exec,
    bind, gets, modify, ret, log.
  cbn -[Text.join set_status_label].
  destruct (start_delay env (length (heap g))) as [d|];
    cbn -[Text.join set_status_label];
    [destruct (N.leb_spec d 5000); cbn -[Text.join set_status_label];
     [lia|]|].
  all: match goal with |- context [set_status_label ?r ?t ?x] =>
         destruct (set_status_label_frame r t x) as ((_ & _ & _ & He) & _) end;
       unfold exec in He; rewrite He; cbn; lia.
Qed.

Lemma stop_registered_elapsed role g :
  (elapsed g ≤ elapsed (exec (stop_registered env role) g) ≤ elapsed g + 3000)%N.
Proof.
  rewrite stop_registered_eq. destruct (Dict.get role (processes g)); [|lia].
  by destruct (graceful_then_forced_spec env 3000
    (Some "Process didn't terminate gracefully, forcing kill") n g)
    as (_ & _ & _ & He & _).
Qed.

Lemma run_command_elapsed cmd role g :
  (elapsed g ≤ elapsed (exec (run_command env cmd role) g) ≤ elapsed g + 8000)%N.
Proof.
  destruct cmd as [cmd|]; [|cbn; lia].
  assert (Hg' : exec (run_command env (Some cmd) role) g
                = exec (launch env cmd role) (exec (stop_registered env role) g)).
  { unfold exec at 1. by rewrite run_command_split. }
  rewrite Hg'.
  pose proof (stop_registered_elapsed role g).
  pose proof (launch_elapsed cmd role (exec (stop_registered env role) g)).
  lia.
Qed.

Lemma build_universal_cmd_elapsed form mode g :
  elapsed (build_universal_cmd env form mode g).2 = elapsed g.
Proof.
  by destruct (build_universal_cmd_state env form mode g) as [[-> _]|[_ [msg ->]]].
Qed.

Lemma check_services_status_elapsed g :
  elapsed (exec (check_services_status env) g) = elapsed g.
Proof.
  unfold check_services_status, record, log, exec, bind, gets, modify. cbn.
  repeat match goal with
  | |- context [match ?x with inl _ => _ | inr _ => _ end] => destruct x
  end; done.
Qed.

Lemma manage_service_elapsed service_name start g :
  elapsed (exec (manage_service env service_name start) g) = elapsed g.
Proof.
  unfold manage_service, show_error, record, log, exec, bind, gets, modify.
  destruct (negb (service_name_match service_name)); [done|].
  destruct (negb (existsb _ _)); [done|].
  cbn -[check_services_status Text.strip].
  destruct (run_result env _ _) as [e|[rc err]]; [done|].
  destruct (rc =? 0)%Z; [|done].
  cbn -[check_services_status].
  match goal with |- context [check_services_status env ?x] =>
    pose proof (check_services_status_elapsed x) as He end.
  unfold exec in He. by rewrite He.
Qed.

Lemma child_exited_elapsed h exit_code g :
  elapsed (exec (child_exited h exit_code) g) = elapsed g.
Proof.
  unfold child_exited, exec, bind, gets, modify. cbn -[emit_finished].
  destruct (bool_decide _); [|done]. cbn -[emit_finished].
  match goal with |- context [emit_finished ?a ?b ?x] =>
    destruct (emit_finished_frame a b x) as ((_ & _ & _ & He) & _) end.
  unfold exec in He. by rewrite He.
Qed.

(** X17. How long one handler keeps the event loop waiting in
    [waitForFinished] and [waitForStarted]: a start handler at most
    8000 ms (3000 ms for the process it replaces and 5000 ms for the new
    one), a stop handler at most 3000 ms, and the service buttons, the
    status refresh and the exit of a child not at all. *)
Theorem handler_blocks_at_most_8000 (e : Event) (g : GUI) :
  (elapsed g ≤ elapsed (exec (dispatch env e) g))%N
  ∧ match e with
    | StartSinkClicked _ | StartSourceClicked _ =>
        (elapsed (exec (dispatch env e) g) ≤ elapsed g + 8000)%N
    | StopSinkClicked | StopSourceClicked =>
        (elapsed (exec (dispatch env e) g) ≤ elapsed g + 3000)%N
    | ServiceClicked _ _ | RefreshStatusClicked | ChildExited _ _ =>
        elapsed (exec (dispatch env e) g) = elapsed g
    end.
Proof.
  destruct e as [form| |form| |name st| |h code]; cbn [dispatch].
  - destruct (Text.nonempty (iface_combo form)) eqn:Hi.
    + pose proof (build_universal_cmd_elapsed form "sink" g) as Hb.
      destruct (build_universal_cmd env form "sink" g) as [[cmd|x] g1] eqn:Hbuild;
        cbn [snd] in Hb.
      * rewrite (start_sink_service_built env form g cmd g1 Hi Hbuild).
        pose proof (run_command_elapsed cmd "sink" g1). cbn. lia.
      * unfold start_sink_service, exec. rewrite Hi. cbn [negb].
        unfold bind. rewrite Hbuild. cbn. lia.
    + unfold start_sink_service, exec. rewrite Hi. cbn. lia.
  - destruct (Dict.get "sink" (processes g)) as [h|] eqn:Hget.
    + rewrite (stop_sink_service_registered env h g Hget).
      destruct (graceful_then_forced_spec env 3000
        (Some "Process didn't terminate gracefully, forcing...") h g)
        as (_ & _ & _ & He & _).
      cbn. lia.
    + unfold exec. rewrite stop_sink_service_unregistered by done. cbn. lia.
  - destruct (Text.nonempty (source_iface_combo form)) eqn:Hi.
    + pose proof (build_universal_cmd_elapsed form "source" g) as Hb.
      destruct (build_universal_cmd env form "source" g) as [[cmd|x] g1] eqn:Hbuild;
        cbn [snd] in Hb.
      * rewrite (start_source_service_built env form g cmd g1 Hi Hbuild).
        pose proof (run_command_elapsed cmd "source" g1). cbn. lia.
      * unfold start_source_service, exec. rewrite Hi. cbn [negb].
        unfold bind. rewrite Hbuild. cbn. lia.
    + unfold start_source_service, exec. rewrite Hi. cbn. lia.
  - destruct (Dict.get "source" (processes g)) as [h|] eqn:Hget.
    + rewrite (stop_source_service_registered env h g Hget).
      destruct (graceful_then_forced_spec env 3000
        (Some "Process didn't terminate gracefully, forcing...") h g)
        as (_ & _ & _ & He & _).
      cbn. lia.
    + unfold exec. rewrite stop_source_service_unregistered by done. cbn. lia.
  - rewrite manage_service_elapsed. lia.
  - rewrite check_services_status_elapsed. lia.
  - rewrite child_exited_elapsed. lia.
Qed.

End Blocking.

(** ** The further properties on concrete runs *)

(** X6 for a sink that was started and stopped. *)
Lemma stop_of_exited_process_witness :
  alive (event_loop Scenario.cooperative
           [StartSinkClicked Scenario.defaults; StopSinkClicked] init) 0 = false
  ∧ calls (exec (stop_sink_service Scenario.cooperative)
             (event_loop Scenario.cooperative
                [StartSinkClicked Scenario.defaults; StopSinkClicked] init))
    = calls (event_loop Scenario.cooperative
               [StartSinkClicked Scenario.defaults; StopSinkClicked] init)
      ++ [Terminate 0; WaitForFinished 0 3000; Kill 0].
Proof.
  split; [reflexivity|].
  destruct (stop_of_exited_process Scenario.cooperative "sink"
              (stop_sink_service Scenario.cooperative) 0
              (event_loop Scenario.cooperative
                 [StartSinkClicked Scenario.defaults; StopSinkClicked] init)
              eq_refl eq_refl eq_refl) as (_ & Hc & _).
  exact Hc.
Defined.

(** X7 for a sink that ignores the termination request: it is killed by
    the Stop button, and Qt reports its exit with code 9 afterwards. *)
Lemma killed_child_reported_as_error_witness :
  registry_ok (Scenario.sink_running Scenario.stubborn)
  ∧ exits_within Scenario.stubborn 0 3000
      (Scenario.sink_running Scenario.stubborn) = false
  ∧ state_of (exec (stop_sink_service Scenario.stubborn)
                (Scenario.sink_running Scenario.stubborn)) 0 = Running
  ∧ status_label "sink"
      (exec (child_exited 0 9)
         (exec (stop_sink_service Scenario.stubborn)
            (Scenario.sink_running Scenario.stubborn)))
    = Some "Error".
Proof.
  assert (Hok : registry_ok (Scenario.sink_running Scenario.stubborn))
    by apply registry_ok_event_loop, registry_ok_init.
  assert (Hcode : (9 ≠ 0)%Z) by discriminate.
  destruct (killed_child_reported_as_error Scenario.stubborn "sink"
              (stop_sink_service Scenario.stubborn) 0 9
              (Scenario.sink_running Scenario.stubborn)
              eq_refl Hok eq_refl eq_refl eq_refl Hcode)
    as (_ & Hst & _ & Hlabel & _).
  split_and!; [exact Hok|reflexivity|exact Hst|exact Hlabel].
Defined.

(** X8 at the initial window. *)
Lemma run_command_empty_launches_nothing_witness :
  wf init
  ∧ calls (exec (run_command Scenario.cooperative (Some []) "sink") init) = []
  ∧ Dict.get "sink"
      (processes (exec (run_command Scenario.cooperative (Some []) "sink") init))
    = None.
Proof.
  destruct (run_command_empty_launches_nothing Scenario.cooperative "sink" init
              init_wf) as (Hc & Hg & _).
  split_and!; [exact init_wf|exact Hc|exact Hg].
Defined.

(** X9 with both roles running: the sink is stopped. *)
Lemma stop_leaves_other_role_witness :
  registry_ok (Scenario.both_running Scenario.cooperative)
  ∧ status_label "source"
      (exec (stop_sink_service Scenario.cooperative)
         (Scenario.both_running Scenario.cooperative))
    = Some "Running"
  ∧ state_of (exec (stop_sink_service Scenario.cooperative)
                (Scenario.both_running Scenario.cooperative)) 1 = Running.
Proof.
  assert (Hok : registry_ok (Scenario.both_running Scenario.cooperative))
    by apply registry_ok_event_loop, registry_ok_init.
  assert (Hne : "source" ≠ "sink") by discriminate.
  destruct (stop_leaves_other_role Scenario.cooperative "sink" "source"
              (stop_sink_service Scenario.cooperative)
              (Scenario.both_running Scenario.cooperative) eq_refl Hne Hok)
    as (_ & Hs & Hst).
  split_and!; [exact Hok|exact Hs|].
  apply (Hst 1). discriminate.
Defined.

(** X10 with the sink running: the source is started. *)
Lemma start_leaves_other_role_witness :
  registry_ok (Scenario.sink_running Scenario.cooperative)
  ∧ status_label "sink"
      (exec (start_source_service Scenario.cooperative Scenario.defaults)
         (Scenario.sink_running Scenario.cooperative))
    = Some "Running"
  ∧ Dict.get "sink"
      (processes
         (exec (start_source_service Scenario.cooperative Scenario.defaults)
            (Scenario.sink_running Scenario.cooperative)))
    = Some 0.
Proof.
  assert (Hok : registry_ok (Scenario.sink_running Scenario.cooperative))
    by apply registry_ok_event_loop, registry_ok_init.
  assert (Hne : "sink" ≠ "source") by discriminate.
  destruct (start_leaves_other_role Scenario.cooperative Scenario.defaults
              "source" "sink"
              (start_source_service Scenario.cooperative Scenario.defaults)
              (Scenario.sink_running Scenario.cooperative) eq_refl Hne Hok)
    as (Hp & Hs & _).
  split_and!; [exact Hok|exact Hs|exact Hp].
Defined.

(** X11 for the source with the default options. *)
Lemma start_reports_running_witness :
  starts_within Scenario.cooperative 0 5000 = true
  ∧ Dict.get "source"
      (processes (exec (start_source_service Scenario.cooperative
                          Scenario.defaults) init)) = Some 0
  ∧ state_of (exec (start_source_service Scenario.cooperative
                      Scenario.defaults) init) 0 = Running.
Proof.
  destruct (start_reports_running Scenario.cooperative Scenario.defaults
              "source" "wlan0"
              (start_source_service Scenario.cooperative Scenario.defaults)
              "/opt/miraclecast-universal.sh"
              ["-i"; "wlan0"; "-m"; "source"; "-r"; "1280x720"; "-f"; "30";
               "-b"; "8192"]
              init eq_refl eq_refl eq_refl eq_refl eq_refl)
    as (Hg & Hst & _).
  split_and!; [reflexivity|exact Hg|exact Hst].
Defined.

(** X12 with the default options. *)
Lemma sink_start_always_launches_witness :
  Text.nonempty (iface_combo Scenario.defaults) = true
  ∧ calls (exec (start_sink_service Scenario.never_starts Scenario.defaults) init)
    = [Start 0 "/opt/miraclecast-universal.sh" ["-i"; "wlan0"; "-m"; "sink"];
       WaitForStarted 0 5000].
Proof.
  destruct (sink_start_always_launches Scenario.never_starts Scenario.defaults
              init eq_refl) as (Hc & _).
  split; [reflexivity|exact Hc].
Defined.

(** X15 for a stop of wpa_supplicant that succeeds. *)
Lemma manage_service_outcome_witness :
  "wpa_supplicant" ∈ allowed_services
  ∧ console (exec (manage_service Scenario.cooperative "wpa_supplicant" false) init)
    = [(false, "wpa_supplicant stoped successfully")].
Proof.
  assert (Hin : "wpa_supplicant" ∈ allowed_services).
  { apply (bool_decide_unpack _). vm_compute. exact I. }
  split; [exact Hin|].
  rewrite (manage_service_outcome Scenario.cooperative "wpa_supplicant" false
             0 "" init Hin eq_refl).
  reflexivity.
Defined.

(** X18 for a source start whose FPS field holds the one character
    U+00B2. *)
Lemma unreadable_option_raises_witness :
  Text.isdigit (Text.strip Scenario.superscript_two) = true
  ∧ SourceOptions.raises Scenario.cooperative
      (Scenario.with_fps Scenario.superscript_two) = true
  ∧ start_source_service Scenario.cooperative
      (Scenario.with_fps Scenario.superscript_two) init = (tt, init).
Proof.
  destruct (unreadable_option_raises Scenario.cooperative
              (Scenario.with_fps Scenario.superscript_two) init
              eq_refl eq_refl) as [_ Hstart].
  split_and!; [reflexivity|reflexivity|exact Hstart].
Defined.
